(** * The sequencing engine of the fiber construction comparison app

    A shallow embedding of [sequencing_logic.py] (class [FiberSequencer]) and
    the properties of its scenario adjuster, packer, aggregator and
    early-efficiency metric.

    Modelling conventions.
    - A pandas DataFrame is the list of its rows, in row order.
    - [Start_Date], [Actual_Start] and [Actual_End] are timestamps: integers
      counting nanoseconds, as pandas stores them; [timedelta] turns a number
      of days into that unit.
    - A cell of a float column ([Miles], [EstRate], [Segment_Cost], ...) is
      the rational number the float stands for.  Division keeps the IEEE
      special values (see [fval]) because the code divides by sums and rates
      that can be zero.
    - The adjuster and the aggregator compute with those cells, and every
      float operation rounds.  The model takes the rounding and the order in
      which [Series.sum()] adds as a parameter (class [Float64]) that fixes
      only what round-to-nearest guarantees; [exact_arithmetic], which never
      rounds, is one arithmetic that meets it.  The totals that the comparator
      and the KPI cards report are stated for exact sums ([Series_sum]).
    - Overflow to an infinity, underflow to zero, NaN cells in the input and
      int64 overflow are outside the model.
    - [DataFrame.sort_values] is called with its default [kind], for which
      pandas only promises an ascending rearrangement of the rows.  The model
      takes the sorting routine as a parameter with exactly that contract
      (class [Sorter]); [insertion_sorter] is one routine that meets it.
    - A Python exception is the [Raise] branch of [outcome]. *)

From Stdlib Require Import String List ZArith QArith Qround Bool Lia.
From Stdlib Require Import Permutation Sorted.
Import ListNotations.

Open Scope Z_scope.

(** ** Exceptions *)

Inductive exn : Type :=
| ValueError (msg : string)
| IndexError (msg : string).

Inductive outcome (A : Type) : Type :=
| Return (a : A)
| Raise (e : exn).

Arguments Return {A} a.
Arguments Raise {A} e.

Definition bind {A B : Type} (m : outcome A) (k : A -> outcome B) : outcome B :=
  match m with
  | Return a => k a
  | Raise e => Raise e
  end.

Notation "x <- m ;; k" := (bind m (fun x => k))
  (at level 61, m at next level, right associativity).

(** ** Numbers *)

Abbreviation Timestamp := Z (only parsing).

Definition ns_per_day : Z := 86400000000000.

(** [timedelta(days=d)] *)
Definition timedelta (days : Z) : Z := days * ns_per_day.

(** A float64 value: a finite number or one of the special values that
    division by zero produces. *)
Inductive fval : Type :=
| Fin (q : Q)
| PosInf
| NegInf
| NaN.

(** Division of two float64 scalars as numpy performs it: no exception,
    [x / 0] is an infinity of the sign of [x], and [0 / 0] is NaN.  A finite
    quotient is given without its rounding; [fdiv] below is the division that
    rounds. *)
Definition np_div (x y : Q) : fval :=
  if Qeq_bool y 0 then
    if Qeq_bool x 0 then NaN
    else if Qle_bool 0 x then PosInf else NegInf
  else Fin (x / y).

(** [np.ceil] *)
Definition np_ceil (x : fval) : fval :=
  match x with
  | Fin q => Fin (inject_Z (Qceiling q))
  | other => other
  end.

Definition isfinite (x : fval) : bool :=
  match x with
  | Fin _ => true
  | _ => false
  end.

(** Conversion of one finite float to an integer: truncation toward zero. *)
Definition trunc (x : fval) : Z :=
  match x with
  | Fin q => Z.quot (Qnum q) (Zpos (Qden q))
  | _ => 0
  end.

(** [Series.astype(int)]: pandas refuses a column with a non-finite cell. *)
Definition astype_int (col : list fval) : outcome (list Z) :=
  if forallb isfinite col then Return (map trunc col)
  else Raise (ValueError "Cannot convert non-finite values (NA or inf) to integer").

(** The exact sum of a column; the sum of an empty column is 0. *)
Definition Series_sum (col : list Q) : Q := fold_left Qplus col 0%Q.

(** ** Binary64 arithmetic

    [fl x] is the float that an operation with exact result [x] delivers.
    Round-to-nearest never reverses an order, leaves a float as it is and,
    short of underflow, gives zero only for zero.  [np_sum] is
    [Series.sum()]: numpy adds the cells pairwise, in an order of its own,
    rounding after every addition; the sum of no cell is 0 and a sum of
    non-negative cells is not negative. *)
Class Float64 : Type := {
  fl : Q -> Q;
  fl_monotone : forall x y, (x <= y)%Q -> (fl x <= fl y)%Q;
  fl_idempotent : forall x, (fl (fl x) == fl x)%Q;
  fl_zero : (fl 0 == 0)%Q;
  fl_nonzero : forall x, ~ (x == 0)%Q -> ~ (fl x == 0)%Q;
  np_sum : list Q -> Q;
  np_sum_nil : np_sum [] = 0%Q;
  np_sum_nonneg :
    forall col, Forall (fun x => (0 <= x)%Q) col -> (0 <= np_sum col)%Q
}.

Section FloatOperations.

Context {arith : Float64}.

(** A rational that is a float. *)
Definition is_float (x : Q) : Prop := (fl x == x)%Q.

(** [x + y] and [x * y] on floats. *)
Definition fadd (x y : Q) : Q := fl (x + y).
Definition fmul (x y : Q) : Q := fl (x * y).

(** [x / y] on floats, as numpy performs it: the quotient is rounded, [x / 0]
    is an infinity of the sign of [x], and [0 / 0] is NaN. *)
Definition fdiv (x y : Q) : fval :=
  if Qeq_bool y 0 then
    if Qeq_bool x 0 then NaN
    else if Qle_bool 0 x then PosInf else NegInf
  else Fin (fl (x / y)).

(** [Series.cumsum()]: the running sum, cell after cell; the first cell is
    taken as it is. *)
Fixpoint cumsum_from (acc : Q) (col : list Q) : list Q :=
  match col with
  | [] => []
  | x :: rest => fadd acc x :: cumsum_from (fadd acc x) rest
  end.

Definition cumsum (col : list Q) : list Q :=
  match col with
  | [] => []
  | x :: rest => x :: cumsum_from x rest
  end.

End FloatOperations.

(** [Series.min()] of a timestamp column; [None] is NaT, the minimum of an
    empty column. *)
Definition Series_min (col : list Timestamp) : option Timestamp :=
  match col with
  | [] => None
  | x :: rest => Some (fold_left Z.min rest x)
  end.

Definition Series_max (col : list Timestamp) : option Timestamp :=
  match col with
  | [] => None
  | x :: rest => Some (fold_left Z.max rest x)
  end.

(** Python's builtin [max(a, b)] on a timestamp [a] and a possibly-NaT [b]:
    [b] is returned only when [b > a] holds, which is never the case for NaT. *)
Definition py_max (a : Timestamp) (b : option Timestamp) : Timestamp :=
  match b with
  | Some b' => if b' >? a then b' else a
  | None => a
  end.

(** ** Rows *)

Record Segment : Type := mkSegment {
  Segment_Name : string;
  Start_Date : Timestamp;
  Duration : Z;
  EstRate : Q;
  Cost_Per_Mile : Q;
  Segment_Cost : Q;
  Miles : Q
}.

Definition set_Start_Date (r : Segment) (v : Timestamp) : Segment :=
  mkSegment (Segment_Name r) v (Duration r) (EstRate r)
            (Cost_Per_Mile r) (Segment_Cost r) (Miles r).

Definition set_EstRate (r : Segment) (v : Q) : Segment :=
  mkSegment (Segment_Name r) (Start_Date r) (Duration r) v
            (Cost_Per_Mile r) (Segment_Cost r) (Miles r).

Definition set_Duration (r : Segment) (v : Z) : Segment :=
  mkSegment (Segment_Name r) (Start_Date r) v (EstRate r)
            (Cost_Per_Mile r) (Segment_Cost r) (Miles r).

(** A row after the packer added [Actual_Start] and [Actual_End]. *)
Record Scheduled : Type := mkScheduled {
  seg : Segment;
  Actual_Start : Timestamp;
  Actual_End : Timestamp
}.

(** A row after the aggregator added the running totals.  The display column
    [Cumulative_Percent] is not modelled: nothing below reads it. *)
Record CumRow : Type := mkCumRow {
  sched : Scheduled;
  Cumulative_Miles : Q;
  Cumulative_Cost : Q
}.

(** The two columns [<pct>%_Day] and [<pct>%_Cost], which hold one value for
    the whole frame; [None] is Python's [None]. *)
Record MilestoneCols : Type := mkMilestoneCols {
  pct : Z;
  Day : option Timestamp;
  Cost : option Q
}.

(** The frame returned by the two sequencing methods. *)
Record Frame : Type := mkFrame {
  rows : list CumRow;
  milestone_cols : list MilestoneCols
}.

(** ** Sorting *)

Definition is_total {A : Type} (leb : A -> A -> bool) : Prop :=
  forall x y, leb x y = true \/ leb y x = true.

Definition is_transitive {A : Type} (leb : A -> A -> bool) : Prop :=
  forall x y z, leb x y = true -> leb y z = true -> leb x z = true.

(** What [sort_values] with the default [kind] promises: the rows are
    rearranged, and they come out in ascending order. *)
Class Sorter : Type := {
  sort_by : forall {A : Type}, (A -> A -> bool) -> list A -> list A;
  sort_by_perm : forall (A : Type) (leb : A -> A -> bool) (l : list A),
      Permutation l (sort_by leb l);
  sort_by_sorted : forall (A : Type) (leb : A -> A -> bool),
      is_total leb -> is_transitive leb ->
      forall l, StronglySorted (fun x y => leb x y = true) (sort_by leb l)
}.

(** [df.sort_values(by)] for a column of kind [K] compared with [leb]. *)
Definition sort_values {sorter : Sorter} {A K : Type}
    (leb : K -> K -> bool) (by_ : A -> K) (df : list A) : list A :=
  sort_by (fun x y => leb (by_ x) (by_ y)) df.

(** One sorting routine with that contract. *)
Fixpoint insert_sorted {A : Type} (leb : A -> A -> bool) (x : A) (l : list A)
  : list A :=
  match l with
  | [] => [x]
  | y :: rest => if leb x y then x :: l else y :: insert_sorted leb x rest
  end.

Fixpoint insertion_sort {A : Type} (leb : A -> A -> bool) (l : list A) : list A :=
  match l with
  | [] => []
  | x :: rest => insert_sorted leb x (insertion_sort leb rest)
  end.

(** ** FiberSequencer *)

Record FiberSequencer : Type := mkFiberSequencer {
  original_data : list Segment;
  data : list Segment
}.

(** [FiberSequencer.__init__] *)
Definition init (df : list Segment) : FiberSequencer :=
  mkFiberSequencer df df.

Definition set_data (self : FiberSequencer) (df : list Segment) : FiberSequencer :=
  mkFiberSequencer (original_data self) df.

(** [df['Duration'] = col] *)
Definition assign_Duration (df : list Segment) (col : list Z) : list Segment :=
  map (fun rc => set_Duration (fst rc) (snd rc)) (combine df col).

(** [FiberSequencer.apply_parameters].  The result pairs the object after the
    call with the call's outcome; when the duration column cannot be converted
    the exception leaves the object as the statements before it made it. *)
Definition apply_parameters {arith : Float64}
    (self : FiberSequencer) (start_date_offset : Z)
    (production_multiplier : Q) (cost_threshold : option Q)
  : FiberSequencer * outcome unit :=
  let self := set_data self (original_data self) in
  let self :=
    if negb (start_date_offset =? 0) then
      set_data self
        (map (fun r => set_Start_Date r (Start_Date r + timedelta start_date_offset))
             (data self))
    else self in
  let recomputed :=
    if negb (Qeq_bool production_multiplier 1) then
      let self :=
        set_data self
          (map (fun r => set_EstRate r (fmul (EstRate r) production_multiplier))
               (data self)) in
      match astype_int
              (map np_ceil (map (fun r => fdiv (Miles r) (EstRate r)) (data self)))
      with
      | Return col => (set_data self (assign_Duration (data self) col), Return tt)
      | Raise e => (self, Raise e)
      end
    else (self, Return tt) in
  match recomputed with
  | (self, Return _) =>
      match cost_threshold with
      | Some c =>
          (set_data self (filter (fun r => Qle_bool (Segment_Cost r) c) (data self)),
           Return tt)
      | None => (self, Return tt)
      end
  | (self, Raise e) => (self, Raise e)
  end.

(** ** The packer: the dating loop of [_calculate_schedule] *)

(** One iteration of the [for] loop.  The state is [current_date] and the two
    lists the loop appends to. *)
Definition schedule_step
    (st : option Timestamp * list Timestamp * list Timestamp) (row : Segment)
  : option Timestamp * list Timestamp * list Timestamp :=
  let '(current_date, actual_start_dates, actual_end_dates) := st in
  let actual_start := py_max (Start_Date row) current_date in
  let end_date := actual_start + timedelta (Duration row) in
  (Some end_date, actual_start_dates ++ [actual_start], actual_end_dates ++ [end_date]).

(** [result['Actual_Start'] = ...; result['Actual_End'] = ...] *)
Definition assign_Actual (df : list Segment) (starts ends : list Timestamp)
  : list Scheduled :=
  map (fun x => mkScheduled (fst x) (fst (snd x)) (snd (snd x)))
      (combine df (combine starts ends)).

(** The first half of [_calculate_schedule]: the frame with its two new
    columns, rows still in the order they were given. *)
Definition actual_dates (sequenced_data : list Segment) : list Scheduled :=
  let current_date := Series_min (map Start_Date sequenced_data) in
  let '(_, actual_start_dates, actual_end_dates) :=
    fold_left schedule_step sequenced_data (current_date, [], []) in
  assign_Actual sequenced_data actual_start_dates actual_end_dates.

(** ** The aggregator: [_calculate_cumulative_metrics] *)

Fixpoint index_of (b : bool) (mask : list bool) : nat :=
  match mask with
  | [] => O
  | x :: rest => if Bool.eqb x b then O else S (index_of b rest)
  end.

(** [Series.idxmax()] of a boolean column whose labels are the positions
    [0 .. n-1]: the position of the first cell equal to the column's maximum.
    On an empty column pandas raises. *)
Definition idxmax (mask : list bool) : outcome nat :=
  match mask with
  | [] => Raise (ValueError "attempt to get argmax of an empty sequence")
  | _ => Return (index_of (existsb (fun x => x) mask) mask)
  end.

Definition row_Miles (r : Scheduled) : Q := Miles (seg r).
Definition row_Cost (r : Scheduled) : Q := Segment_Cost (seg r).

(** [result['Cumulative_Miles'] = ...; result['Cumulative_Cost'] = ...] *)
Definition assign_Cumulative (df : list Scheduled) (miles costs : list Q)
  : list CumRow :=
  map (fun x => mkCumRow (fst x) (fst (snd x)) (snd (snd x)))
      (combine df (combine miles costs)).

(** The body of the milestone loop for one [milestone]. *)
Definition milestone_columns {arith : Float64}
    (result : list CumRow) (total_miles milestone : Q)
  : outcome MilestoneCols :=
  let milestone_miles := fmul total_miles milestone in
  milestone_idx <-
    idxmax (map (fun r => Qle_bool milestone_miles (Cumulative_Miles r)) result) ;;
  let name := trunc (Fin (milestone * 100)) in
  if (milestone_idx <? length result)%nat then
    match nth_error result milestone_idx with
    | Some milestone_row =>
        Return (mkMilestoneCols name
                  (Some (Actual_End (sched milestone_row)))
                  (Some (Cumulative_Cost milestone_row)))
    | None => Raise (IndexError "single positional indexer is out-of-bounds")
    end
  else Return (mkMilestoneCols name None None).

Fixpoint milestone_loop {arith : Float64} (result : list CumRow) (total_miles : Q)
    (milestones : list Q) : outcome (list MilestoneCols) :=
  match milestones with
  | [] => Return []
  | milestone :: rest =>
      c <- milestone_columns result total_miles milestone ;;
      cs <- milestone_loop result total_miles rest ;;
      Return (c :: cs)
  end.

Definition milestones : list Q := [1 # 2; 3 # 4; 1]%Q.

Section Sequencing.

Context {sorter : Sorter} {arith : Float64}.

Definition _calculate_cumulative_metrics (df : list Scheduled) : outcome Frame :=
  let result := sort_values Z.leb Actual_Start df in
  let result :=
    assign_Cumulative result (cumsum (map row_Miles result))
                             (cumsum (map row_Cost result)) in
  let total_miles := np_sum (map (fun r => row_Miles (sched r)) result) in
  cols <- milestone_loop result total_miles milestones ;;
  Return (mkFrame result cols).

Definition _calculate_schedule (sequenced_data : list Segment) : outcome Frame :=
  _calculate_cumulative_metrics (actual_dates sequenced_data).

Definition sequence_by_start_date (self : FiberSequencer) : outcome Frame :=
  _calculate_schedule (sort_values Z.leb Start_Date (data self)).

Definition sequence_by_lowest_cost (self : FiberSequencer) : outcome Frame :=
  _calculate_schedule (sort_values Qle_bool Segment_Cost (data self)).

End Sequencing.

(** ** The comparator: the metrics of [get_pros_cons_analysis] *)

Record Metrics : Type := mkMetrics {
  total_days : option Z;
  total_cost : Q;
  early_efficiency : fval
}.

(** [(a - b).days]; NaT when either side is. *)
Definition days_between (a b : option Timestamp) : option Z :=
  match a, b with
  | Some x, Some y => Some ((x - y) / ns_per_day)
  | _, _ => None
  end.

(** The three numbers the analysis computes for one method's frame. *)
Definition method_metrics (method : list CumRow) : Metrics :=
  let early := firstn (Nat.div (length method) 4) method in
  mkMetrics
    (days_between (Series_max (map (fun r => Actual_End (sched r)) method))
                  (Series_min (map (fun r => Actual_Start (sched r)) method)))
    (Series_sum (map (fun r => row_Cost (sched r)) method))
    (np_div (Series_sum (map (fun r => row_Miles (sched r)) early))
            (Series_sum (map (fun r => row_Cost (sched r)) early))).

(** The ['metrics'] entries of [get_pros_cons_analysis], for the start-date
    method and the lowest-cost method. *)
Definition get_pros_cons_analysis (start_date_method lowest_cost_method : Frame)
  : Metrics * Metrics :=
  (method_metrics (rows start_date_method),
   method_metrics (rows lowest_cost_method)).

(** ** The operations as the specification words them

    These definitions follow the specification, not the code; the theorems
    below compare them with the code's. *)

(** [adjust] on one segment: shift the planned start, and under a rate change
    multiply the rate and recompute the duration; the product and the
    quotient are those of float arithmetic. *)
Definition adjust_segment {arith : Float64}
    (offsetDays : Z) (rateMultiplier : Q) (s : Segment) : Segment :=
  let shifted := set_Start_Date s (Start_Date s + timedelta offsetDays) in
  if Qeq_bool rateMultiplier 1 then shifted
  else
    let newRate := fmul (EstRate s) rateMultiplier in
    set_Duration (set_EstRate shifted newRate) (Qceiling (fl (Miles s / newRate))).

(** Dropping the segments whose total cost exceeds the ceiling. *)
Definition cost_filter (costCeiling : option Q) (segments : list Segment)
  : list Segment :=
  match costCeiling with
  | Some c => filter (fun s => Qle_bool (Segment_Cost s) c) segments
  | None => segments
  end.

(** The packing fold: the accumulator is the cursor. *)
Fixpoint pack (cursor : Timestamp) (ordered : list Segment) : list Scheduled :=
  match ordered with
  | [] => []
  | s :: rest =>
      let actualStart := Z.max (Start_Date s) cursor in
      let actualEnd := actualStart + timedelta (Duration s) in
      mkScheduled s actualStart actualEnd :: pack actualEnd rest
  end.

(** The two ordering rules. *)
Inductive order_rule : Type :=
| ByStartDate
| ByLowestCost.

(** The working set in the order a rule puts it. *)
Definition ordered_by {sorter : Sorter} (rule : order_rule)
    (working_set : list Segment) : list Segment :=
  match rule with
  | ByStartDate => sort_values Z.leb Start_Date working_set
  | ByLowestCost => sort_values Qle_bool Segment_Cost working_set
  end.

(** The sequencing method of a rule. *)
Definition sequence {sorter : Sorter} {arith : Float64} (rule : order_rule)
    (self : FiberSequencer) : outcome Frame :=
  match rule with
  | ByStartDate => sequence_by_start_date self
  | ByLowestCost => sequence_by_lowest_cost self
  end.

(** [x] is the minimum of a column: it occurs there and nothing is below it. *)
Definition is_minimum (x : Timestamp) (col : list Timestamp) : Prop :=
  In x col /\ Forall (fun y => x <= y) col.

(** No row ends after the next one starts. *)
Definition no_overlap (schedule : list Scheduled) : Prop :=
  forall i a b,
    nth_error schedule i = Some a ->
    nth_error schedule (Datatypes.S i) = Some b ->
    Actual_End a <= Actual_Start b.

(** No row starts before its planned start. *)
Definition start_floor (schedule : list Scheduled) : Prop :=
  Forall (fun r => Start_Date (seg r) <= Actual_Start r) schedule.

(** A column of numbers that never goes down. *)
Definition non_decreasing (col : list Q) : Prop :=
  StronglySorted Qle col.

(** The first row whose running distance reaches [threshold], if any. *)
Definition first_reaching (threshold : Q) (schedule : list CumRow) : option CumRow :=
  find (fun r => Qle_bool threshold (Cumulative_Miles r)) schedule.

(** ** Auxiliary definitions for the statements *)

(** The row a milestone's columns are read from: the first row that reaches
    the threshold, and the first row of the frame when none does. *)
Definition milestone_row (threshold : Q) (result : list CumRow) : option CumRow :=
  match first_reaching threshold result with
  | Some r => Some r
  | None => hd_error result
  end.

(** The float sum of a column added up from its first cell to its last; the
    first cell is taken as it is. *)
Definition running_sum {arith : Float64} (col : list Q) : Q :=
  match col with
  | [] => 0%Q
  | x :: rest => fold_left fadd rest x
  end.

(** The rows of the aggregated frame. *)
Definition aggregated {sorter : Sorter} {arith : Float64}
    (df : list Scheduled) : list CumRow :=
  let result := sort_values Z.leb Actual_Start df in
  assign_Cumulative result (cumsum (map row_Miles result))
                           (cumsum (map row_Cost result)).

(** The packed rows of a returned frame with their dates in whole days. *)
Definition in_days (o : outcome Frame) : list (string * Z * Z) :=
  match o with
  | Return frame =>
      map (fun r => (Segment_Name (seg (sched r)),
                     Actual_Start (sched r) / ns_per_day,
                     Actual_End (sched r) / ns_per_day))
          (rows frame)
  | Raise _ => []
  end.

(** The running costs of a returned frame. *)
Definition cumulative_costs (o : outcome Frame) : list Q :=
  match o with
  | Return frame => map Cumulative_Cost (rows frame)
  | Raise _ => []
  end.

(** The frame a method returned. *)
Definition frame_of (o : outcome Frame) : Frame :=
  match o with
  | Return frame => frame
  | Raise _ => mkFrame [] []
  end.

(** A second sorting routine: insertion sort of the reversed frame. *)
Definition reversing_sort {A : Type} (leb : A -> A -> bool) (l : list A) : list A :=
  insertion_sort leb (rev l).

(** ** A sample working set

    The three segments of the specification's example scenario, with
    distances and rates added. *)

Definition seg_A : Segment :=
  mkSegment "A" (timedelta 0) 10 2 5000 100000 20.

Definition seg_B : Segment :=
  mkSegment "B" (timedelta 0) 5 2 5000 50000 10.

Definition seg_C : Segment :=
  mkSegment "C" (timedelta 20) 5 1 6000 30000 5.

Definition sample : list Segment := [seg_A; seg_B; seg_C].

(** A fourth segment for the example scenario. *)
Definition seg_D : Segment :=
  mkSegment "D" (timedelta 30) 8 2 4000 64000 16.

(** A segment that carries a credit: a negative total cost on a positive
    distance. *)
Definition seg_R : Segment :=
  mkSegment "R" (timedelta 0) 5 2 (- (300)) (- (3000)) 10.

Definition credit_set : list Segment := [seg_A; seg_R].

(** A segment with a negative distance. *)
Definition seg_N : Segment :=
  mkSegment "N" (timedelta 0) 5 2 5000 10000 (- (2)).

(** A segment with nothing to build: zero miles at zero cost. *)
Definition seg_Z : Segment :=
  mkSegment "Z" (timedelta 0) 3 2 5000 0 0.

(** ** The comparator: [get_milestone_comparison] and [create_kpi_cards]

    Both functions read the milestone columns of the two frames by name and
    take the value of the first row. *)

(** What these functions can raise: a missing column besides the exceptions
    above. *)
Inductive report_exn : Type :=
| KeyError (milestone : Z)
| Other (e : exn).

Inductive reported (A : Type) : Type :=
| Done (a : A)
| Failed (e : report_exn).

Arguments Done {A} a.
Arguments Failed {A} e.

Definition and_then {A B : Type} (m : reported A) (k : A -> reported B)
  : reported B :=
  match m with
  | Done a => k a
  | Failed e => Failed e
  end.

(** [df[f'{milestone}%_Day'].iloc[0]] together with
    [df[f'{milestone}%_Cost'].iloc[0]]: a [KeyError] when the frame has no
    such columns, an [IndexError] when it has no row. *)
Definition iloc0_milestone (df : Frame) (milestone : Z) : reported MilestoneCols :=
  match find (fun c => pct c =? milestone) (milestone_cols df) with
  | None => Failed (KeyError milestone)
  | Some c =>
      match rows df with
      | [] => Failed (Other (IndexError "single positional indexer is out-of-bounds"))
      | _ :: _ => Done c
      end
  end.

(** The truth value Python gives a milestone cost: [None] and zero are
    false. *)
Definition truthy_cost (c : option Q) : bool :=
  match c with
  | Some q => negb (Qeq_bool q 0)
  | None => false
  end.

(** The truth value of a milestone day: a timestamp is true, [None] false. *)
Definition truthy_day (d : option Timestamp) : bool :=
  match d with
  | Some _ => true
  | None => false
  end.

(** One entry of the comparison dictionary. *)
Record MilestoneDelta : Type := mkMilestoneDelta {
  start_date_day : option Timestamp;
  lowest_cost_day : option Timestamp;
  day_diff : option Z;
  start_date_cost : option Q;
  lowest_cost_cost : option Q;
  cost_diff : option Q
}.

(** The body of the loop of [get_milestone_comparison]. *)
Definition compare_milestone (start_date_method lowest_cost_method : Frame)
    (milestone : Z) : reported MilestoneDelta :=
  and_then (iloc0_milestone start_date_method milestone) (fun a =>
  and_then (iloc0_milestone lowest_cost_method milestone) (fun b =>
  let day_diff :=
    if truthy_day (Day a) && truthy_day (Day b)
    then days_between (Day b) (Day a)
    else None in
  let cost_diff :=
    if truthy_cost (Cost a) && truthy_cost (Cost b)
    then match Cost a, Cost b with
         | Some ca, Some cb => Some (cb - ca)%Q
         | _, _ => None
         end
    else None in
  Done (mkMilestoneDelta (Day a) (Day b) day_diff (Cost a) (Cost b) cost_diff))).

Fixpoint for_each_milestone {A : Type} (body : Z -> reported A)
    (milestones : list Z) : reported (list (Z * A)) :=
  match milestones with
  | [] => Done []
  | milestone :: rest =>
      and_then (body milestone) (fun entry =>
      and_then (for_each_milestone body rest) (fun entries =>
      Done ((milestone, entry) :: entries)))
  end.

(** [FiberSequencer.get_milestone_comparison]; the dictionary is the list of
    its entries in insertion order. *)
Definition get_milestone_comparison (start_date_method lowest_cost_method : Frame)
  : reported (list (Z * MilestoneDelta)) :=
  for_each_milestone (compare_milestone start_date_method lowest_cost_method)
                     [50; 75; 100].

(** [a - b] on two day counts either of which can be NaN. *)
Definition option_sub (a b : option Z) : option Z :=
  match a, b with
  | Some x, Some y => Some (x - y)
  | _, _ => None
  end.

(** One entry of the ['milestones'] dictionary of the KPI cards. *)
Record KpiMilestone : Type := mkKpiMilestone {
  start_date_days : option Z;
  lowest_cost_days : option Z;
  kpi_start_date_cost : option Q;
  kpi_lowest_cost_cost : option Q
}.

(** The dictionary [create_kpi_cards] returns. *)
Record KpiCards : Type := mkKpiCards {
  days_start_date : option Z;
  days_lowest_cost : option Z;
  days_difference : option Z;
  cost_start_date : Q;
  cost_lowest_cost : Q;
  cost_difference : Q;
  kpi_milestones : list (Z * KpiMilestone)
}.

Definition frame_total_days (df : Frame) : option Z :=
  days_between (Series_max (map (fun r => Actual_End (sched r)) (rows df)))
               (Series_min (map (fun r => Actual_Start (sched r)) (rows df))).

Definition frame_total_cost (df : Frame) : Q :=
  Series_sum (map (fun r => row_Cost (sched r)) (rows df)).

(** The body of the milestone loop of [create_kpi_cards]. *)
Definition kpi_milestone (start_date_data lowest_cost_data : Frame)
    (milestone : Z) : reported KpiMilestone :=
  and_then (iloc0_milestone start_date_data milestone) (fun a =>
  and_then (iloc0_milestone lowest_cost_data milestone) (fun b =>
  let both := truthy_day (Day a) && truthy_day (Day b) in
  Done (mkKpiMilestone
          (if both
           then days_between (Day a)
                  (Series_min (map (fun r => Actual_Start (sched r))
                                   (rows start_date_data)))
           else None)
          (if both
           then days_between (Day b)
                  (Series_min (map (fun r => Actual_Start (sched r))
                                   (rows lowest_cost_data)))
           else None)
          (Cost a) (Cost b)))).

(** [create_kpi_cards] of [visualizations.py]. *)
Definition create_kpi_cards (start_date_data lowest_cost_data : Frame)
  : reported KpiCards :=
  let start_date_total_days := frame_total_days start_date_data in
  let lowest_cost_total_days := frame_total_days lowest_cost_data in
  let start_date_total_cost := frame_total_cost start_date_data in
  let lowest_cost_total_cost := frame_total_cost lowest_cost_data in
  and_then (for_each_milestone (kpi_milestone start_date_data lowest_cost_data)
                               [50; 75; 100]) (fun milestones =>
  Done (mkKpiCards
          start_date_total_days lowest_cost_total_days
          (option_sub lowest_cost_total_days start_date_total_days)
          start_date_total_cost lowest_cost_total_cost
          (lowest_cost_total_cost - start_date_total_cost)%Q
          milestones)).

(** ** The curves of [create_cumulative_progress_chart]

    The dates and the two lists of percentages that the function computes
    and hands to the two traces of its figure. *)

(** A float times the integer 100. *)
Definition times_100 {arith : Float64} (x : fval) : fval :=
  match x with
  | Fin q => Fin (fmul q 100)
  | other => other
  end.

(** [pd.date_range(min_date, max_date, freq='D')]: the dates one day apart
    from [min_date] on that do not pass [max_date]. *)
Definition date_range (min_date max_date : Timestamp) : list Timestamp :=
  if max_date <? min_date then []
  else map (fun k => min_date + timedelta (Z.of_nat k))
           (seq 0 (Datatypes.S (Z.to_nat ((max_date - min_date) / ns_per_day)))).

(** The body of a progress loop: the percentage of the frame's distance
    that the rows ended by [date] make up, and the integer 0 when no row has
    ended. *)
Definition progress_on {arith : Float64} (data : list CumRow) (date : Timestamp)
  : fval :=
  let completed := filter (fun r => Actual_End (sched r) <=? date) data in
  if (0 <? length completed)%nat
  then times_100
         (fdiv (np_sum (map (fun r => row_Miles (sched r)) completed))
               (np_sum (map (fun r => row_Miles (sched r)) data)))
  else Fin 0.

(** The four date columns that the function concatenates. *)
Definition all_dates (start_date_data lowest_cost_data : Frame) : list Timestamp :=
  map (fun r => Actual_Start (sched r)) (rows start_date_data)
  ++ map (fun r => Actual_End (sched r)) (rows start_date_data)
  ++ map (fun r => Actual_Start (sched r)) (rows lowest_cost_data)
  ++ map (fun r => Actual_End (sched r)) (rows lowest_cost_data).

(** The x values and the two lists of y values of the chart.  With no row
    in either frame both bounds are NaT, which [pd.date_range] refuses. *)
Definition progress_curves {arith : Float64} (start_date_data lowest_cost_data : Frame)
  : outcome (list Timestamp * list fval * list fval) :=
  match Series_min (all_dates start_date_data lowest_cost_data),
        Series_max (all_dates start_date_data lowest_cost_data) with
  | Some min_date, Some max_date =>
      let dates := date_range min_date max_date in
      Return (dates,
              map (progress_on (rows start_date_data)) dates,
              map (progress_on (rows lowest_cost_data)) dates)
  | _, _ => Raise (ValueError "Neither `start` nor `end` can be NaT")
  end.

(** The percentage of [progress_on] as a rational, for a frame whose summed
    distance is not zero. *)
Definition percent_on {arith : Float64} (data : list CumRow) (date : Timestamp) : Q :=
  let completed := filter (fun r => Actual_End (sched r) <=? date) data in
  if (0 <? length completed)%nat
  then fmul (fl (np_sum (map (fun r => row_Miles (sched r)) completed)
                 / np_sum (map (fun r => row_Miles (sched r)) data)))
            100
  else 0%Q.

(** ** Auxiliary definitions for the further statements *)

(** The date at which the crew is free after the ordered rows: the cursor
    the dating loop ends with. *)
Fixpoint finish (cursor : Timestamp) (ordered : list Segment) : Timestamp :=
  match ordered with
  | [] => cursor
  | s :: rest =>
      finish (Z.max (Start_Date s) cursor + timedelta (Duration s)) rest
  end.

(** The work, as a time span, of the segments planned to start at [t] or
    later. *)
Fixpoint work_from (t : Timestamp) (segments : list Segment) : Z :=
  match segments with
  | [] => 0
  | s :: rest =>
      (if t <=? Start_Date s then timedelta (Duration s) else 0)
      + work_from t rest
  end.

(** The sum of the durations, in days. *)
Definition total_duration (segments : list Segment) : Z :=
  fold_right Z.add 0 (map Duration segments).

(** A packed row moved by a number of days. *)
Definition shift_scheduled (days : Z) (r : Scheduled) : Scheduled :=
  mkScheduled (set_Start_Date (seg r) (Start_Date (seg r) + timedelta days))
              (Actual_Start r + timedelta days)
              (Actual_End r + timedelta days).

(** [x] is the maximum of a column. *)
Definition is_maximum (x : Timestamp) (col : list Timestamp) : Prop :=
  In x col /\ Forall (fun y => y <= x) col.

(** * Properties *)

(** ** The insertion sort meets the sorting contract *)

Lemma insert_sorted_perm {A : Type} (leb : A -> A -> bool) (x : A) (l : list A) :
  Permutation (x :: l) (insert_sorted leb x l).
Proof.
  induction l as [|y rest IH]; simpl.
  - apply Permutation_refl.
  - destruct (leb x y).
    + apply Permutation_refl.
    + eapply perm_trans; [apply perm_swap|]. now apply perm_skip.
Qed.

Lemma insertion_sort_perm {A : Type} (leb : A -> A -> bool) (l : list A) :
  Permutation l (insertion_sort leb l).
Proof.
  induction l as [|x rest IH]; simpl.
  - constructor.
  - eapply perm_trans; [apply perm_skip, IH|]. apply insert_sorted_perm.
Qed.

Lemma insert_sorted_sorted {A : Type} (leb : A -> A -> bool) :
  is_total leb -> is_transitive leb ->
  forall x l,
    StronglySorted (fun a b => leb a b = true) l ->
    StronglySorted (fun a b => leb a b = true) (insert_sorted leb x l).
Proof.
  intros Htot Htr x l Hl.
  induction Hl as [|y rest Hrest IH Hy]; simpl.
  - constructor; constructor.
  - destruct (leb x y) eqn:Exy.
    + constructor.
      * now constructor.
      * constructor; [exact Exy|].
        eapply Forall_impl; [|exact Hy].
        intros z Hz. now apply (Htr x y z).
    + constructor; [exact IH|].
      apply (Permutation_Forall (insert_sorted_perm leb x rest)).
      constructor; [|exact Hy].
      destruct (Htot x y) as [H|H]; [congruence|exact H].
Qed.

Lemma insertion_sort_sorted {A : Type} (leb : A -> A -> bool) :
  is_total leb -> is_transitive leb ->
  forall l, StronglySorted (fun a b => leb a b = true) (insertion_sort leb l).
Proof.
  intros Htot Htr l.
  induction l as [|x rest IH]; simpl.
  - constructor.
  - now apply insert_sorted_sorted.
Qed.

#[export] Instance insertion_sorter : Sorter := {|
  sort_by := @insertion_sort;
  sort_by_perm := @insertion_sort_perm;
  sort_by_sorted := @insertion_sort_sorted
|}.

(** ** Exact sums, and the arithmetic that never rounds *)

Lemma fold_Qplus_acc (col : list Q) :
  forall acc, (fold_left Qplus col acc == acc + fold_left Qplus col 0)%Q.
Proof.
  induction col as [|x rest IH]; intros acc; cbn [fold_left].
  - now rewrite Qplus_0_r.
  - rewrite (IH (acc + x)%Q), (IH (0 + x)%Q). ring.
Qed.

Lemma Series_sum_cons (x : Q) (col : list Q) :
  (Series_sum (x :: col) == x + Series_sum col)%Q.
Proof.
  unfold Series_sum. cbn [fold_left]. rewrite fold_Qplus_acc. ring.
Qed.

Lemma Series_sum_perm (col col' : list Q) :
  Permutation col col' -> (Series_sum col == Series_sum col')%Q.
Proof.
  induction 1 as [|x l l' _ IH|x y l|l l' l'' _ IH1 _ IH2].
  - reflexivity.
  - now rewrite !Series_sum_cons, IH.
  - rewrite !Series_sum_cons. ring.
  - now rewrite IH1.
Qed.

Lemma Series_sum_nonneg (col : list Q) :
  Forall (fun x => (0 <= x)%Q) col -> (0 <= Series_sum col)%Q.
Proof.
  induction 1 as [|x rest Hx _ IH]; [discriminate|].
  rewrite Series_sum_cons.
  rewrite <- (Qplus_0_r 0). now apply Qplus_le_compat.
Qed.

#[export] Instance exact_arithmetic : Float64 := {|
  fl := fun x => x;
  fl_monotone := fun x y H => H;
  fl_idempotent := fun x => Qeq_refl x;
  fl_zero := Qeq_refl 0;
  fl_nonzero := fun x H => H;
  np_sum := Series_sum;
  np_sum_nil := eq_refl;
  np_sum_nonneg := Series_sum_nonneg
|}.

(** ** The orders the code sorts by *)

Lemma StronglySorted_weaken {A : Type} (R1 R2 : A -> A -> Prop) (l : list A) :
  (forall x y, R1 x y -> R2 x y) -> StronglySorted R1 l -> StronglySorted R2 l.
Proof.
  intros Himp Hl. induction Hl as [|x rest Hrest IH Hx]; constructor.
  - exact IH.
  - eapply Forall_impl; [|exact Hx]. intros y. apply Himp.
Qed.

Lemma Zleb_key_total {A : Type} (key : A -> Z) :
  is_total (fun x y => key x <=? key y).
Proof.
  intros x y. destruct (Z.leb_spec (key x) (key y)); [now left|right].
  apply Z.leb_le. lia.
Qed.

Lemma Zleb_key_transitive {A : Type} (key : A -> Z) :
  is_transitive (fun x y => key x <=? key y).
Proof.
  intros x y z H1 H2. apply Z.leb_le in H1, H2. apply Z.leb_le. lia.
Qed.

Lemma Qleb_key_total {A : Type} (key : A -> Q) :
  is_total (fun x y => Qle_bool (key x) (key y)).
Proof.
  intros x y. rewrite !Qle_bool_iff.
  destruct (Qlt_le_dec (key y) (key x)) as [H|H]; [right|now left].
  now apply Qlt_le_weak.
Qed.

Lemma Qleb_key_transitive {A : Type} (key : A -> Q) :
  is_transitive (fun x y => Qle_bool (key x) (key y)).
Proof.
  intros x y z. rewrite !Qle_bool_iff. apply Qle_trans.
Qed.

Section SortValues.

Context {sorter : Sorter} {arith : Float64}.

Lemma sort_values_perm {A K : Type} (leb : K -> K -> bool) (by_ : A -> K) df :
  Permutation df (sort_values leb by_ df).
Proof. apply sort_by_perm. Qed.

Lemma sort_values_nil {A K : Type} (leb : K -> K -> bool) (by_ : A -> K) :
  sort_values leb by_ [] = [].
Proof.
  apply Permutation_nil, sort_values_perm.
Qed.

Lemma sort_values_not_nil {A K : Type} (leb : K -> K -> bool) (by_ : A -> K) df :
  df <> [] -> sort_values leb by_ df <> [].
Proof.
  intros Hne Hnil. apply Hne.
  apply Permutation_nil, Permutation_sym. rewrite <- Hnil.
  apply sort_values_perm.
Qed.

Lemma sort_values_date_sorted {A : Type} (by_ : A -> Timestamp) df :
  StronglySorted (fun x y => by_ x <= by_ y) (sort_values Z.leb by_ df).
Proof.
  unfold sort_values.
  eapply StronglySorted_weaken; [|apply sort_by_sorted].
  - intros x y H. now apply Z.leb_le.
  - apply Zleb_key_total.
  - apply Zleb_key_transitive.
Qed.

Lemma sort_values_num_sorted {A : Type} (by_ : A -> Q) df :
  StronglySorted (fun x y => (by_ x <= by_ y)%Q) (sort_values Qle_bool by_ df).
Proof.
  unfold sort_values.
  eapply StronglySorted_weaken; [|apply sort_by_sorted].
  - intros x y H. now apply Qle_bool_iff.
  - apply Qleb_key_total.
  - apply Qleb_key_transitive.
Qed.

End SortValues.

(** ** The scenario adjuster *)

Lemma set_Start_Date_same (r : Segment) :
  set_Start_Date r (Start_Date r + timedelta 0) = r.
Proof.
  destruct r as [n s d e c sc m]. unfold set_Start_Date, timedelta. simpl.
  now rewrite Z.add_0_r.
Qed.

Lemma shift_zero (df : list Segment) :
  map (fun r => set_Start_Date r (Start_Date r + timedelta 0)) df = df.
Proof.
  induction df as [|r rest IH]; cbn [map]; [reflexivity|].
  now rewrite set_Start_Date_same, IH.
Qed.

Lemma np_div_finite (x y : Q) : ~ (y == 0)%Q -> np_div x y = Fin (x / y).
Proof.
  intros Hy. unfold np_div.
  destruct (Qeq_bool y 0) eqn:E; [|reflexivity].
  apply Qeq_bool_iff in E. contradiction.
Qed.

Lemma trunc_ceil (q : Q) : trunc (np_ceil (Fin q)) = Qceiling q.
Proof.
  simpl. apply Z.quot_1_r.
Qed.

Lemma isfinite_ceil (x : fval) : isfinite (np_ceil x) = isfinite x.
Proof. now destruct x. Qed.

Lemma assign_Duration_map (f : Segment -> Z) (df : list Segment) :
  assign_Duration df (map f df) = map (fun r => set_Duration r (f r)) df.
Proof.
  unfold assign_Duration.
  induction df as [|r rest IH]; cbn [map combine fst snd]; [reflexivity|].
  now rewrite IH.
Qed.

Lemma Qceiling_pos (q : Q) : (0 < q)%Q -> 1 <= Qceiling q.
Proof.
  intros Hq.
  assert (H : (0 < inject_Z (Qceiling q))%Q)
    by (eapply Qlt_le_trans; [exact Hq|apply Qle_ceiling]).
  unfold Qlt in H. simpl in H. lia.
Qed.

Lemma Qceiling_nonpos (q : Q) : (q <= 0)%Q -> Qceiling q <= 0.
Proof.
  intros Hq.
  assert (H : (inject_Z (Qceiling q - 1) < 0)%Q)
    by (eapply Qlt_le_trans; [apply Qceiling_lt|exact Hq]).
  unfold Qlt in H. simpl in H. lia.
Qed.

Lemma Qdiv_pos_neg (a b : Q) : (0 < a)%Q -> (b < 0)%Q -> (a / b < 0)%Q.
Proof.
  destruct a as [an ad], b as [[|bn|bn] bd];
    unfold Qlt, Qdiv, Qmult, Qinv; simpl; intros Ha Hb; try lia.
Qed.

Lemma Qmult_pos_neg (a b : Q) : (0 < a)%Q -> (b < 0)%Q -> (a * b < 0)%Q.
Proof.
  destruct a as [an ad], b as [bn bd].
  unfold Qlt, Qmult; simpl; intros Ha Hb. nia.
Qed.

Lemma Qpos_nonzero (a : Q) : (0 < a)%Q -> ~ (a == 0)%Q.
Proof.
  intros Ha He. rewrite He in Ha. now apply Qlt_irrefl in Ha.
Qed.

Lemma Qneg_nonzero (a : Q) : (a < 0)%Q -> ~ (a == 0)%Q.
Proof.
  intros Ha He. rewrite He in Ha. now apply Qlt_irrefl in Ha.
Qed.

Lemma Qeq_bool_false_of_neq (a b : Q) : ~ (a == b)%Q -> Qeq_bool a b = false.
Proof.
  intros Hne. destruct (Qeq_bool a b) eqn:E; [|reflexivity].
  apply Qeq_bool_iff in E. contradiction.
Qed.

Section Adjuster.

Context {arith : Float64}.

(** *** Rounding keeps order and sign *)

Lemma fl_compat (x y : Q) : (x == y)%Q -> (fl x == fl y)%Q.
Proof.
  intros H. apply Qle_antisym; apply fl_monotone; rewrite H; apply Qle_refl.
Qed.

Lemma fl_nonneg (x : Q) : (0 <= x)%Q -> (0 <= fl x)%Q.
Proof.
  intros H. rewrite <- fl_zero. now apply fl_monotone.
Qed.

Lemma fl_nonpos (x : Q) : (x <= 0)%Q -> (fl x <= 0)%Q.
Proof.
  intros H. rewrite <- fl_zero. now apply fl_monotone.
Qed.

Lemma fl_pos (x : Q) : (0 < x)%Q -> (0 < fl x)%Q.
Proof.
  intros H.
  destruct (proj1 (Qle_lteq 0 (fl x)) (fl_nonneg x (Qlt_le_weak _ _ H)))
    as [Hlt|Heq]; [exact Hlt|].
  exfalso. apply (fl_nonzero x); [now apply Qpos_nonzero|now symmetry].
Qed.

Lemma fl_neg (x : Q) : (x < 0)%Q -> (fl x < 0)%Q.
Proof.
  intros H.
  destruct (proj1 (Qle_lteq (fl x) 0) (fl_nonpos x (Qlt_le_weak _ _ H)))
    as [Hlt|Heq]; [exact Hlt|].
  exfalso. now apply (fl_nonzero x); [apply Qneg_nonzero|].
Qed.

(** The sign of a float quotient is the sign of the exact one. *)
Lemma fl_pos_iff (x : Q) : (0 < fl x)%Q <-> (0 < x)%Q.
Proof.
  split; [|apply fl_pos].
  intros H. destruct (Qlt_le_dec 0 x) as [Hx|Hx]; [exact Hx|].
  exfalso. apply (Qlt_irrefl 0).
  eapply Qlt_le_trans; [exact H|now apply fl_nonpos].
Qed.

Lemma fdiv_finite (x y : Q) : ~ (y == 0)%Q -> fdiv x y = Fin (fl (x / y)).
Proof.
  intros Hy. unfold fdiv.
  destruct (Qeq_bool y 0) eqn:E; [|reflexivity].
  apply Qeq_bool_iff in E. contradiction.
Qed.

Lemma fdiv_zero (x y : Q) : (y == 0)%Q -> isfinite (fdiv x y) = false.
Proof.
  intros Hy. unfold fdiv.
  apply Qeq_bool_iff in Hy. rewrite Hy.
  destruct (Qeq_bool x 0); [reflexivity|]. now destruct (Qle_bool 0 x).
Qed.

(** *** The duration column *)

(** The duration column is recomputed without error when no rate is zero. *)
Lemma recompute_duration_ok (df : list Segment) :
  Forall (fun r => ~ (EstRate r == 0)%Q) df ->
  astype_int (map np_ceil (map (fun r => fdiv (Miles r) (EstRate r)) df))
  = Return (map (fun r => Qceiling (fl (Miles r / EstRate r))) df).
Proof.
  intros Hdf. unfold astype_int.
  assert (Hcol : map np_ceil (map (fun r => fdiv (Miles r) (EstRate r)) df)
                 = map (fun r => np_ceil (Fin (fl (Miles r / EstRate r)))) df).
  { rewrite map_map. apply map_ext_in. intros r Hr.
    rewrite Forall_forall in Hdf. now rewrite fdiv_finite by auto. }
  rewrite Hcol.
  replace (forallb isfinite
             (map (fun r => np_ceil (Fin (fl (Miles r / EstRate r)))) df))
    with true.
  - f_equal. rewrite map_map. apply map_ext. intros r. apply trunc_ceil.
  - symmetry. apply forallb_forall. intros x Hx.
    apply in_map_iff in Hx. destruct Hx as [r [<- _]]. reflexivity.
Qed.

(** A zero rate makes the conversion raise. *)
Lemma recompute_duration_raises (df : list Segment) :
  Exists (fun r => (EstRate r == 0)%Q) df ->
  astype_int (map np_ceil (map (fun r => fdiv (Miles r) (EstRate r)) df))
  = Raise (ValueError "Cannot convert non-finite values (NA or inf) to integer").
Proof.
  intros Hex. unfold astype_int.
  replace (forallb isfinite
             (map np_ceil (map (fun r => fdiv (Miles r) (EstRate r)) df)))
    with false; [reflexivity|].
  symmetry. induction Hex as [r rest Hr|r rest Hrest IH]; cbn [map forallb].
  - now rewrite isfinite_ceil, fdiv_zero.
  - rewrite IH. apply andb_false_r.
Qed.

Lemma adjust_segment_same_rate (off : Z) (m : Q) (s : Segment) :
  Qeq_bool m 1 = true ->
  adjust_segment off m s = set_Start_Date s (Start_Date s + timedelta off).
Proof. intros E. unfold adjust_segment. now rewrite E. Qed.

Lemma adjust_segment_new_rate (off : Z) (m : Q) (s : Segment) :
  Qeq_bool m 1 = false ->
  adjust_segment off m s
  = set_Duration
      (set_EstRate (set_Start_Date s (Start_Date s + timedelta off))
                   (fmul (EstRate s) m))
      (Qceiling (fl (Miles s / fmul (EstRate s) m))).
Proof. intros E. unfold adjust_segment. now rewrite E. Qed.

(** The adjustment touches neither the name nor the money nor the distance
    of a segment. *)
Lemma adjust_segment_keeps (off : Z) (m : Q) (s : Segment) :
  Segment_Name (adjust_segment off m s) = Segment_Name s
  /\ Start_Date (adjust_segment off m s) = Start_Date s + timedelta off
  /\ Cost_Per_Mile (adjust_segment off m s) = Cost_Per_Mile s
  /\ Segment_Cost (adjust_segment off m s) = Segment_Cost s
  /\ Miles (adjust_segment off m s) = Miles s.
Proof.
  unfold adjust_segment. destruct (Qeq_bool m 1); cbn; now repeat split.
Qed.

(** The ceiling looks at the total cost only, which the adjustment leaves
    alone: filtering before or after the adjustment keeps the same rows. *)
Lemma cost_filter_adjusted (off : Z) (m : Q) (c : option Q) (df : list Segment) :
  cost_filter c (map (adjust_segment off m) df)
  = map (adjust_segment off m) (cost_filter c df).
Proof.
  destruct c as [c|]; [|reflexivity]. cbn [cost_filter].
  induction df as [|s rest IH]; [reflexivity|]. cbn [map filter].
  destruct (adjust_segment_keeps off m s) as [_ [_ [_ [Hcost _]]]].
  rewrite Hcost, IH. now destruct (Qle_bool (Segment_Cost s) c).
Qed.

(** What [apply_parameters] does when no adjusted rate is zero: it returns
    normally, and the working set is the filtered list of adjusted rows. *)
Lemma apply_parameters_ok (self : FiberSequencer) (off : Z) (m : Q) (c : option Q) :
  (Qeq_bool m 1 = false ->
   Forall (fun r => ~ (fmul (EstRate r) m == 0)%Q) (original_data self)) ->
  apply_parameters self off m c
  = (set_data self (cost_filter c (map (adjust_segment off m) (original_data self))),
     Return tt).
Proof.
  intros Hrates. unfold apply_parameters.
  set (shift := fun r => set_Start_Date r (Start_Date r + timedelta off)).
  assert (Hoff :
    (if negb (off =? 0)
     then set_data (set_data self (original_data self))
            (map shift (data (set_data self (original_data self))))
     else set_data self (original_data self))
    = set_data self (map shift (original_data self))).
  { destruct (Z.eqb_spec off 0) as [->|_]; cbn [negb]; [|reflexivity].
    unfold shift. now rewrite shift_zero. }
  rewrite Hoff. clear Hoff.
  destruct (Qeq_bool m 1) eqn:Em; cbn [negb].
  - assert (Hmap : map (adjust_segment off m) (original_data self)
                   = map shift (original_data self)).
    { apply map_ext. intros s. now apply adjust_segment_same_rate. }
    rewrite Hmap. destruct c; reflexivity.
  - cbn [set_data data original_data].
    set (scaled := map (fun r => set_EstRate r (fmul (EstRate r) m))
                       (map shift (original_data self))).
    assert (Hnz : Forall (fun r => ~ (EstRate r == 0)%Q) scaled).
    { unfold scaled. rewrite map_map. apply Forall_map.
      eapply Forall_impl; [|exact (Hrates eq_refl)].
      intros r Hr. exact Hr. }
    rewrite (recompute_duration_ok scaled Hnz).
    rewrite assign_Duration_map.
    assert (Hmap : map (fun r => set_Duration r (Qceiling (fl (Miles r / EstRate r))))
                       scaled
                   = map (adjust_segment off m) (original_data self)).
    { unfold scaled. rewrite !map_map. apply map_ext. intros s.
      now rewrite adjust_segment_new_rate. }
    cbn [set_data data original_data]. rewrite Hmap.
    destruct c; reflexivity.
Qed.

Lemma apply_parameters_reads_original (s1 s2 : FiberSequencer)
    (off : Z) (m : Q) (c : option Q) :
  original_data s1 = original_data s2 ->
  apply_parameters s1 off m c = apply_parameters s2 off m c.
Proof.
  destruct s1 as [o1 d1], s2 as [o2 d2]. cbn [original_data].
  intros ->. reflexivity.
Qed.

Lemma apply_parameters_keeps_original (self : FiberSequencer)
    (off : Z) (m : Q) (c : option Q) :
  original_data (fst (apply_parameters self off m c)) = original_data self.
Proof.
  unfold apply_parameters.
  destruct (negb (off =? 0)), (negb (Qeq_bool m 1)); cbn [set_data data original_data];
    try (destruct c; reflexivity);
    match goal with
    | |- context [astype_int ?col] => destruct (astype_int col)
    end; destruct c; reflexivity.
Qed.


(** C10: with the default parameters [apply_parameters] leaves the working
    set equal to the original data, and every call rebuilds the working set
    from the untouched original, so that a call after another gives what it
    gives alone. *)
Theorem apply_parameters_default_identity (self : FiberSequencer) :
  apply_parameters self 0 1 None = (init (original_data self), Return tt)
  /\ (forall df, data (fst (apply_parameters (init df) 0 1 None)) = df)
  /\ (forall off m c working,
        apply_parameters (set_data self working) off m c
        = apply_parameters self off m c)
  /\ (forall off m c,
        original_data (fst (apply_parameters self off m c)) = original_data self)
  /\ (forall off1 m1 c1 off2 m2 c2,
        apply_parameters (fst (apply_parameters self off1 m1 c1)) off2 m2 c2
        = apply_parameters self off2 m2 c2).
Proof.
  split; [reflexivity|]. split; [reflexivity|]. split; [|split].
  - intros off m c working. now apply apply_parameters_reads_original.
  - intros off m c. apply apply_parameters_keeps_original.
  - intros off1 m1 c1 off2 m2 c2.
    apply apply_parameters_reads_original, apply_parameters_keeps_original.
Qed.

(** C6, as the code has it: whenever no adjusted rate is zero and every
    recomputed duration fits a 64-bit integer, [apply_parameters] returns
    normally and the working set is the original with every planned start
    moved by the offset; under a rate change every rate is replaced by its
    float product with the multiplier and every duration by the ceiling of
    the float quotient of the distance by the new rate, the total cost
    staying as it was.  No minimum is applied to that ceiling: it is at least
    1 exactly when the distance divided by the new rate is positive.  The
    cost ceiling, applied to the adjusted rows, keeps exactly those whose
    total cost does not exceed it. *)
Theorem apply_parameters_adjusts (self : FiberSequencer)
    (offsetDays : Z) (rateMultiplier : Q) (costCeiling : option Q) :
  (Qeq_bool rateMultiplier 1 = false ->
   Forall (fun s =>
             ~ (fmul (EstRate s) rateMultiplier == 0)%Q
             /\ - 2 ^ 63
                <= Qceiling (fl (Miles s / fmul (EstRate s) rateMultiplier))
                < 2 ^ 63)
          (original_data self)) ->
  let adjusted := map (adjust_segment offsetDays rateMultiplier) (original_data self) in
  let after := apply_parameters self offsetDays rateMultiplier costCeiling in
  after = (set_data self (cost_filter costCeiling adjusted), Return tt)
  /\ (forall s, In s (original_data self) ->
        let s' := adjust_segment offsetDays rateMultiplier s in
        Start_Date s' = Start_Date s + timedelta offsetDays
        /\ Segment_Cost s' = Segment_Cost s
        /\ Miles s' = Miles s
        /\ (Qeq_bool rateMultiplier 1 = true ->
              EstRate s' = EstRate s /\ Duration s' = Duration s)
        /\ (Qeq_bool rateMultiplier 1 = false ->
              EstRate s' = fmul (EstRate s) rateMultiplier
              /\ Duration s' = Qceiling (fl (Miles s / EstRate s'))
              /\ (1 <= Duration s' <-> (0 < Miles s / EstRate s')%Q)))
  /\ (costCeiling = None -> data (fst after) = adjusted)
  /\ (forall c s', costCeiling = Some c ->
        (In s' (data (fst after)) <->
         In s' adjusted /\ ~ (c < Segment_Cost s')%Q)).
Proof.
  intros Hdomain adjusted after.
  assert (Hafter : after = (set_data self (cost_filter costCeiling adjusted), Return tt)).
  { apply apply_parameters_ok. intros Em.
    eapply Forall_impl; [|exact (Hdomain Em)]. intros s [Hr _]. exact Hr. }
  split; [exact Hafter|]. split; [|split].
  - intros s Hs s'. subst s'.
    unfold adjust_segment.
    destruct (Qeq_bool rateMultiplier 1) eqn:Em; cbn;
      (split; [reflexivity|]); (split; [reflexivity|]); (split; [reflexivity|]);
      (split; [intros E|intros E]); try discriminate E.
    + split; reflexivity.
    + split; [reflexivity|]. split; [reflexivity|].
      rewrite <- fl_pos_iff. split.
      * intros Hone. destruct (Qlt_le_dec 0 (fl (Miles s / fmul (EstRate s) rateMultiplier)))
          as [Hq|Hq]; [exact Hq|].
        apply Qceiling_nonpos in Hq. lia.
      * apply Qceiling_pos.
  - intros ->. now rewrite Hafter.
  - intros c s' ->. rewrite Hafter. cbn [fst set_data data cost_filter].
    rewrite filter_In, Qle_bool_iff.
    split; intros [Hin Hc]; (split; [exact Hin|]).
    + now apply Qle_not_lt.
    + now apply Qnot_lt_le.
Qed.

(** C7, as the code has it: a negative multiplier is not refused.  On
    segments with positive rate and distance the call returns normally; the
    working set is rebuilt from the original, less the rows above the cost
    ceiling, with every planned start moved by the offset, every rate
    replaced by its float product with the multiplier, which is negative, and
    every duration recomputed to a number that is zero or negative.  The
    original data stays as it was. *)
Theorem apply_parameters_negative_multiplier (self : FiberSequencer)
    (offsetDays : Z) (rateMultiplier : Q) (costCeiling : option Q) :
  (rateMultiplier < 0)%Q ->
  Forall (fun s => (0 < EstRate s)%Q /\ (0 < Miles s)%Q) (original_data self) ->
  let after := apply_parameters self offsetDays rateMultiplier costCeiling in
  snd after = Return tt
  /\ original_data (fst after) = original_data self
  /\ Forall2 (fun s s' =>
                Segment_Name s' = Segment_Name s
                /\ Start_Date s' = Start_Date s + timedelta offsetDays
                /\ Segment_Cost s' = Segment_Cost s
                /\ Miles s' = Miles s
                /\ EstRate s' = fmul (EstRate s) rateMultiplier
                /\ (EstRate s' < 0)%Q
                /\ Duration s' <= 0)
             (cost_filter costCeiling (original_data self))
             (data (fst after)).
Proof.
  intros Hm Hpos after.
  assert (Hne : Qeq_bool rateMultiplier 1 = false).
  { apply Qeq_bool_false_of_neq. intros He. rewrite He in Hm.
    unfold Qlt in Hm. simpl in Hm. lia. }
  assert (Hrate : forall s, (0 < EstRate s)%Q ->
                            (fmul (EstRate s) rateMultiplier < 0)%Q).
  { intros s Hr. apply fl_neg. now apply Qmult_pos_neg. }
  assert (Hafter : after
                   = (set_data self
                        (cost_filter costCeiling
                           (map (adjust_segment offsetDays rateMultiplier)
                                (original_data self))),
                      Return tt)).
  { apply apply_parameters_ok. intros _.
    eapply Forall_impl; [|exact Hpos]. intros s [Hr _].
    apply Qneg_nonzero. now apply Hrate. }
  split; [now rewrite Hafter|]. split; [apply apply_parameters_keeps_original|].
  rewrite Hafter. cbn [fst set_data data]. rewrite cost_filter_adjusted.
  assert (Hkept : Forall (fun s => (0 < EstRate s)%Q /\ (0 < Miles s)%Q)
                         (cost_filter costCeiling (original_data self))).
  { destruct costCeiling as [c|]; [|exact Hpos]. cbn [cost_filter].
    apply Forall_forall. intros s Hs. apply filter_In in Hs.
    rewrite Forall_forall in Hpos. now apply Hpos. }
  induction Hkept as [|s rest [Hr Hd] _ IH]; cbn [map]; constructor; [|exact IH].
  destruct (adjust_segment_keeps offsetDays rateMultiplier s)
    as [Hname [Hstart [_ [Hcost Hmiles]]]].
  split; [exact Hname|]. split; [exact Hstart|].
  split; [exact Hcost|]. split; [exact Hmiles|].
  rewrite adjust_segment_new_rate by exact Hne. cbn.
  split; [reflexivity|]. split; [now apply Hrate|].
  apply Qceiling_nonpos, fl_nonpos, Qlt_le_weak, Qdiv_pos_neg;
    [exact Hd|now apply Hrate].
Qed.

(** With a multiplier of zero the conversion of the duration column raises,
    after the working set was already replaced and its dates and rates
    rewritten. *)
Remark apply_parameters_zero_multiplier (self : FiberSequencer)
    (offsetDays : Z) (costCeiling : option Q) :
  original_data self <> [] ->
  apply_parameters self offsetDays 0 costCeiling
  = (set_data self
       (map (fun r => set_EstRate r (fmul (EstRate r) 0))
            (map (fun r => set_Start_Date r (Start_Date r + timedelta offsetDays))
                 (original_data self))),
     Raise (ValueError "Cannot convert non-finite values (NA or inf) to integer")).
Proof.
  intros Hne. unfold apply_parameters.
  set (shift := fun r => set_Start_Date r (Start_Date r + timedelta offsetDays)).
  assert (Hoff :
    (if negb (offsetDays =? 0)
     then set_data (set_data self (original_data self))
            (map shift (data (set_data self (original_data self))))
     else set_data self (original_data self))
    = set_data self (map shift (original_data self))).
  { destruct (Z.eqb_spec offsetDays 0) as [->|_]; cbn [negb]; [|reflexivity].
    unfold shift. now rewrite shift_zero. }
  rewrite Hoff. clear Hoff. cbn [Qeq_bool negb set_data data original_data].
  rewrite recompute_duration_raises; [reflexivity|].
  destruct (original_data self) as [|r rest]; [contradiction|].
  cbn [map]. apply Exists_cons_hd. cbn. unfold fmul.
  rewrite <- fl_zero at 2. apply fl_compat, Qmult_0_r.
Qed.

End Adjuster.

Lemma apply_parameters_adjusts_witness :
  snd (apply_parameters (init sample) 5 (6 # 5) (Some 60000%Q)) = Return tt
  /\ map Segment_Name (data (fst (apply_parameters (init sample) 5 (6 # 5)
                                     (Some 60000%Q))))
     = ["B"%string; "C"%string]
  /\ map Duration (data (fst (apply_parameters (init sample) 5 (6 # 5)
                                 (Some 60000%Q))))
     = map (fun s => Qceiling (Miles s / (EstRate s * (6 # 5)))) [seg_B; seg_C].
Proof.
  assert (Hdomain :
    Qeq_bool (6 # 5) 1 = false ->
    Forall (fun s =>
              ~ (fmul (EstRate s) (6 # 5) == 0)%Q
              /\ - 2 ^ 63 <= Qceiling (fl (Miles s / fmul (EstRate s) (6 # 5))) < 2 ^ 63)
           (original_data (init sample))).
  { intros _. repeat constructor; try discriminate; vm_compute; discriminate. }
  destruct (apply_parameters_adjusts (init sample) 5 (6 # 5) (Some 60000%Q) Hdomain)
    as [Heq _].
  rewrite Heq. repeat split.
Defined.

(** C6 fails as stated: no minimum is applied to a recomputed duration.  A
    segment of zero miles gets a duration of 0 days under the multiplier 2,
    and segment A one of -10 days under the multiplier -1. *)
Lemma apply_parameters_applies_no_minimum :
  snd (apply_parameters (init [seg_Z]) 0 2 None) = Return tt
  /\ map Duration (data (fst (apply_parameters (init [seg_Z]) 0 2 None))) = [0]
  /\ snd (apply_parameters (init [seg_A]) 0 (- (1)) None) = Return tt
  /\ map Duration (data (fst (apply_parameters (init [seg_A]) 0 (- (1)) None)))
     = [-10].
Proof.
  repeat split.
Qed.

Lemma apply_parameters_negative_multiplier_witness :
  snd (apply_parameters (init [seg_A]) 0 (- (1 # 2)) None) = Return tt
  /\ Forall (fun s' => Duration s' <= 0)
            (data (fst (apply_parameters (init [seg_A]) 0 (- (1 # 2)) None))).
Proof.
  assert (Hm : (- (1 # 2) < 0)%Q) by reflexivity.
  assert (Hpos : Forall (fun s => (0 < EstRate s)%Q /\ (0 < Miles s)%Q)
                        (original_data (init [seg_A]))).
  { repeat constructor. }
  destruct (apply_parameters_negative_multiplier
              (init [seg_A]) 0 (- (1 # 2)) None Hm Hpos) as [Hret [_ Hrows]].
  split; [exact Hret|].
  cbn [cost_filter original_data init] in Hrows.
  inversion Hrows as [|s s' l l' Hrow Hrest]; subst.
  inversion Hrest; subst. constructor; [|constructor].
  now destruct Hrow as [_ [_ [_ [_ [_ [_ Hd]]]]]].
Defined.

(** C7 fails as stated: with the multiplier -1/2 the call on segment A
    returns normally, and the working set holds a duration of -20 days. *)
Lemma apply_parameters_accepts_negative_multiplier :
  (- (1 # 2) <= 0)%Q
  /\ snd (apply_parameters (init [seg_A]) 0 (- (1 # 2)) None) = Return tt
  /\ map Duration (data (fst (apply_parameters (init [seg_A]) 0 (- (1 # 2)) None)))
     = [-20].
Proof.
  split; [discriminate|]. split; reflexivity.
Qed.

(** ** The packer *)

Lemma py_max_some (a b : Timestamp) : py_max a (Some b) = Z.max a b.
Proof.
  unfold py_max. destruct (Z.gtb_spec b a); lia.
Qed.

Lemma schedule_step_some (cursor : Timestamp) (starts ends : list Timestamp)
    (s : Segment) :
  schedule_step (Some cursor, starts, ends) s
  = (Some (Z.max (Start_Date s) cursor + timedelta (Duration s)),
     starts ++ [Z.max (Start_Date s) cursor],
     ends ++ [Z.max (Start_Date s) cursor + timedelta (Duration s)]).
Proof.
  unfold schedule_step. now rewrite py_max_some.
Qed.

(** The loop, started with a cursor, appends the dates of the packing fold. *)
Lemma loop_appends_pack (ordered : list Segment) :
  forall cursor starts ends,
    exists last_date,
      fold_left schedule_step ordered (Some cursor, starts, ends)
      = (last_date,
         starts ++ map Actual_Start (pack cursor ordered),
         ends ++ map Actual_End (pack cursor ordered)).
Proof.
  induction ordered as [|s rest IH]; intros cursor starts ends.
  - exists (Some cursor). cbn. now rewrite !app_nil_r.
  - cbn [fold_left]. rewrite schedule_step_some.
    destruct (IH (Z.max (Start_Date s) cursor + timedelta (Duration s))
                 (starts ++ [Z.max (Start_Date s) cursor])
                 (ends ++ [Z.max (Start_Date s) cursor + timedelta (Duration s)]))
      as [last_date Hfold].
    exists last_date. rewrite Hfold. cbn [pack map Actual_Start Actual_End].
    now rewrite <- !app_assoc.
Qed.

Lemma assign_Actual_pack (ordered : list Segment) :
  forall cursor,
    assign_Actual ordered (map Actual_Start (pack cursor ordered))
                          (map Actual_End (pack cursor ordered))
    = pack cursor ordered.
Proof.
  unfold assign_Actual.
  induction ordered as [|s rest IH]; intros cursor; [reflexivity|].
  cbn [pack map combine fst snd Actual_Start Actual_End]. now rewrite IH.
Qed.

Lemma fold_min_spec (rest : list Timestamp) :
  forall x,
    let m := fold_left Z.min rest x in
    (m = x \/ In m rest) /\ m <= x /\ Forall (fun y => m <= y) rest.
Proof.
  induction rest as [|y rest IH]; intros x; cbn [fold_left].
  - repeat split; [now left|lia|constructor].
  - destruct (IH (Z.min x y)) as [Hin [Hle Hall]].
    split; [|split].
    + destruct Hin as [Heq|Hin]; [|right; now right].
      destruct (Z.min_spec x y) as [[_ Hm]|[_ Hm]].
      * left. now rewrite Heq.
      * right. left. now rewrite Heq.
    + lia.
    + constructor; [lia|exact Hall].
Qed.

Lemma Series_min_is_minimum (col : list Timestamp) :
  col <> [] -> exists m, Series_min col = Some m /\ is_minimum m col.
Proof.
  destruct col as [|x rest]; [contradiction|]. intros _.
  exists (fold_left Z.min rest x). split; [reflexivity|].
  destruct (fold_min_spec rest x) as [Hin [Hle Hall]].
  split.
  - destruct Hin as [->|Hin]; [now left|now right].
  - now constructor.
Qed.

(** The dating loop is the packing fold started at the minimum planned
    start. *)
Lemma actual_dates_pack (ordered : list Segment) (cursor : Timestamp) :
  Series_min (map Start_Date ordered) = Some cursor ->
  actual_dates ordered = pack cursor ordered.
Proof.
  intros Hmin. unfold actual_dates. rewrite Hmin.
  destruct (loop_appends_pack ordered cursor [] []) as [last_date Hfold].
  rewrite Hfold. cbn [app]. apply assign_Actual_pack.
Qed.

Lemma actual_dates_nil : actual_dates [] = [].
Proof. reflexivity. Qed.

Lemma pack_segments (ordered : list Segment) :
  forall cursor, map seg (pack cursor ordered) = ordered.
Proof.
  induction ordered as [|s rest IH]; intros cursor; [reflexivity|].
  cbn [pack map seg]. now rewrite IH.
Qed.

Lemma pack_start_floor (ordered : list Segment) :
  forall cursor, start_floor (pack cursor ordered).
Proof.
  unfold start_floor.
  induction ordered as [|s rest IH]; intros cursor; cbn [pack]; constructor.
  - cbn. lia.
  - apply IH.
Qed.

Lemma pack_no_overlap (ordered : list Segment) :
  forall cursor, no_overlap (pack cursor ordered).
Proof.
  unfold no_overlap.
  induction ordered as [|s rest IH]; intros cursor i a b Ha Hb.
  - destruct i; discriminate Ha.
  - destruct i as [|i]; cbn [pack nth_error] in Ha, Hb.
    + injection Ha as <-. destruct rest as [|s2 rest]; [discriminate Hb|].
      cbn [pack nth_error] in Hb. injection Hb as <-. cbn. lia.
    + exact (IH _ i a b Ha Hb).
Qed.

(** With positive durations the packed rows start strictly later and
    later. *)
Lemma pack_starts_increase (ordered : list Segment) :
  Forall (fun s => 0 < Duration s) ordered ->
  forall cursor,
    Forall (fun r => cursor <= Actual_Start r) (pack cursor ordered)
    /\ StronglySorted (fun a b => Actual_Start a < Actual_Start b)
                      (pack cursor ordered).
Proof.
  induction 1 as [|s rest Hs Hrest IH]; intros cursor; cbn [pack].
  - split; constructor.
  - destruct (IH (Z.max (Start_Date s) cursor + timedelta (Duration s)))
      as [Hlow Hsorted].
    assert (Hday : 0 < timedelta (Duration s)) by (unfold timedelta, ns_per_day; lia).
    split.
    + constructor; [cbn; lia|].
      eapply Forall_impl; [|exact Hlow]. cbn. intros r Hr. lia.
    + constructor; [exact Hsorted|].
      eapply Forall_impl; [|exact Hlow]. cbn. intros r Hr. lia.
Qed.

(** A list whose keys strictly increase has only one ascending
    rearrangement: itself. *)
Lemma sorted_permutation_unique {A : Type} (key : A -> Z) (l : list A) :
  StronglySorted (fun a b => key a < key b) l ->
  forall l',
    Permutation l l' ->
    StronglySorted (fun a b => key a <= key b) l' ->
    l = l'.
Proof.
  induction 1 as [|x rest Hrest IH Hx]; intros l' Hperm Hsorted.
  - symmetry. now apply Permutation_nil.
  - destruct l' as [|y rest'].
    + apply Permutation_sym, Permutation_nil in Hperm. discriminate Hperm.
    + assert (Hxy : x = y).
      { inversion Hsorted as [|? ? _ Hy]; subst.
        assert (Hyin : In y (x :: rest))
          by (eapply Permutation_in; [apply Permutation_sym, Hperm|now left]).
        destruct Hyin as [Heq|Hyin]; [exact Heq|].
        assert (Hxin : In x (y :: rest'))
          by (eapply Permutation_in; [exact Hperm|now left]).
        destruct Hxin as [Heq|Hxin]; [now symmetry|].
        rewrite Forall_forall in Hx, Hy.
        specialize (Hx y Hyin). specialize (Hy x Hxin). lia. }
      subst y. f_equal. apply IH.
      * eapply Permutation_cons_inv. exact Hperm.
      * now inversion Hsorted.
Qed.

(** ** The aggregator *)

Section Aggregator.

Context {sorter : Sorter} {arith : Float64}.

Lemma cumsum_from_length (col : list Q) :
  forall acc, length (cumsum_from acc col) = length col.
Proof.
  induction col as [|x rest IH]; intros acc; cbn; [reflexivity|].
  now rewrite IH.
Qed.

Lemma cumsum_length (col : list Q) : length (cumsum col) = length col.
Proof.
  destruct col as [|x rest]; cbn; [reflexivity|].
  now rewrite cumsum_from_length.
Qed.

Lemma assign_Cumulative_columns (df : list Scheduled) :
  forall miles costs,
    length miles = length df -> length costs = length df ->
    map sched (assign_Cumulative df miles costs) = df
    /\ map Cumulative_Miles (assign_Cumulative df miles costs) = miles
    /\ map Cumulative_Cost (assign_Cumulative df miles costs) = costs.
Proof.
  unfold assign_Cumulative.
  induction df as [|r rest IH]; intros [|m miles] [|c costs] Hm Hc;
    try discriminate; [now repeat split|].
  injection Hm as Hm. injection Hc as Hc.
  destruct (IH miles costs Hm Hc) as [H1 [H2 H3]].
  cbn [combine map fst snd sched Cumulative_Miles Cumulative_Cost].
  now rewrite H1, H2, H3.
Qed.

Lemma find_some_index {A : Type} (p : A -> bool) (l : list A) (r : A) :
  find p l = Some r ->
  existsb (fun x => x) (map p l) = true
  /\ nth_error l (index_of true (map p l)) = Some r.
Proof.
  induction l as [|a rest IH]; cbn [find map existsb index_of]; [discriminate|].
  destruct (p a) eqn:Ea; cbn [orb Bool.eqb nth_error].
  - intros H. now split.
  - intros H. destruct (IH H) as [H1 H2]. now split.
Qed.

Lemma find_none_mask {A : Type} (p : A -> bool) (l : list A) :
  find p l = None ->
  existsb (fun x => x) (map p l) = false /\ Forall (fun x => p x = false) l.
Proof.
  induction l as [|a rest IH]; cbn [find map existsb]; [now split|].
  destruct (p a) eqn:Ea; [discriminate|]. cbn [orb].
  intros H. destruct (IH H) as [H1 H2]. split; [exact H1|now constructor].
Qed.


Lemma milestone_columns_row (result : list CumRow) (total_miles milestone : Q) :
  milestone_columns result total_miles milestone
  = match milestone_row (fmul total_miles milestone) result with
    | Some row =>
        Return (mkMilestoneCols (trunc (Fin (milestone * 100)))
                  (Some (Actual_End (sched row)))
                  (Some (Cumulative_Cost row)))
    | None => Raise (ValueError "attempt to get argmax of an empty sequence")
    end.
Proof.
  unfold milestone_columns, milestone_row, first_reaching.
  set (p := fun r => Qle_bool (fmul total_miles milestone) (Cumulative_Miles r)).
  destruct result as [|r0 rest]; [reflexivity|].
  assert (Hidx : idxmax (map p (r0 :: rest))
                 = Return (index_of (existsb (fun x => x) (map p (r0 :: rest)))
                                    (map p (r0 :: rest)))) by reflexivity.
  rewrite Hidx. cbn [bind].
  destruct (find p (r0 :: rest)) as [r|] eqn:Efind.
  - destruct (find_some_index p _ r Efind) as [Hex Hnth].
    rewrite Hex, Hnth.
    assert (Hlt : (index_of true (map p (r0 :: rest)) < length (r0 :: rest))%nat).
    { apply nth_error_Some. rewrite Hnth. discriminate. }
    apply Nat.ltb_lt in Hlt. now rewrite Hlt.
  - destruct (find_none_mask p _ Efind) as [Hex Hall].
    rewrite Hex. inversion Hall as [|? ? Hp0 _]; subst.
    cbn [map index_of]. rewrite Hp0. reflexivity.
Qed.

Lemma milestone_loop_returns (result : list CumRow) (total_miles : Q)
    (ms : list Q) :
  result <> [] ->
  exists cols,
    milestone_loop result total_miles ms = Return cols
    /\ Forall2 (fun m c => milestone_columns result total_miles m = Return c) ms cols.
Proof.
  intros Hne. induction ms as [|m rest IH]; cbn [milestone_loop].
  - exists []. split; [reflexivity|constructor].
  - destruct IH as [cols [Hloop Hall]].
    assert (Hm : exists c, milestone_columns result total_miles m = Return c).
    { rewrite milestone_columns_row. unfold milestone_row.
      destruct (first_reaching (fmul total_miles m) result); [eauto|].
      destruct result; [contradiction|]. cbn. eauto. }
    destruct Hm as [c Hc]. exists (c :: cols).
    rewrite Hc, Hloop. split; [reflexivity|now constructor].
Qed.

Lemma milestone_loop_raises (total_miles : Q) (m : Q) (rest : list Q) :
  milestone_loop [] total_miles (m :: rest)
  = Raise (ValueError "attempt to get argmax of an empty sequence").
Proof. reflexivity. Qed.

Lemma aggregated_columns (df : list Scheduled) :
  map sched (aggregated df) = sort_values Z.leb Actual_Start df
  /\ map Cumulative_Miles (aggregated df)
     = cumsum (map row_Miles (sort_values Z.leb Actual_Start df))
  /\ map Cumulative_Cost (aggregated df)
     = cumsum (map row_Cost (sort_values Z.leb Actual_Start df)).
Proof.
  unfold aggregated. apply assign_Cumulative_columns;
    now rewrite cumsum_length, length_map.
Qed.

Lemma aggregated_not_nil (df : list Scheduled) : df <> [] -> aggregated df <> [].
Proof.
  intros Hne Hnil.
  apply (sort_values_not_nil Z.leb Actual_Start df Hne).
  destruct (aggregated_columns df) as [H _]. rewrite <- H, Hnil. reflexivity.
Qed.

(** On a non-empty frame the aggregator returns: the rows with their running
    totals, and one pair of milestone columns per threshold. *)
Lemma cumulative_metrics_returns (df : list Scheduled) :
  df <> [] ->
  exists cols,
    _calculate_cumulative_metrics df = Return (mkFrame (aggregated df) cols)
    /\ Forall2 (fun m c =>
                  milestone_columns (aggregated df)
                    (np_sum (map (fun r => row_Miles (sched r)) (aggregated df)))
                    m = Return c)
               milestones cols.
Proof.
  intros Hne. unfold _calculate_cumulative_metrics. fold (aggregated df).
  destruct (milestone_loop_returns (aggregated df)
              (np_sum (map (fun r => row_Miles (sched r)) (aggregated df)))
              milestones (aggregated_not_nil df Hne)) as [cols [Hloop Hall]].
  exists cols. rewrite Hloop. split; [reflexivity|exact Hall].
Qed.

(** On an empty frame the first milestone raises. *)
Lemma cumulative_metrics_empty :
  _calculate_cumulative_metrics []
  = Raise (ValueError "attempt to get argmax of an empty sequence").
Proof.
  unfold _calculate_cumulative_metrics. rewrite sort_values_nil. reflexivity.
Qed.

End Aggregator.

(** ** The two sequencing methods *)

Section SequencingProperties.

Context {sorter : Sorter} {arith : Float64}.

Lemma sequence_unfold (rule : order_rule) (self : FiberSequencer) :
  sequence rule self
  = _calculate_cumulative_metrics (actual_dates (ordered_by rule (data self))).
Proof. now destruct rule. Qed.

Lemma ordered_by_perm (rule : order_rule) (df : list Segment) :
  Permutation df (ordered_by rule df).
Proof. destruct rule; apply sort_values_perm. Qed.

(** Either rule puts the rows in ascending order of its key. *)
Lemma ordered_by_sorted (df : list Segment) :
  StronglySorted (fun a b => Start_Date a <= Start_Date b)
                 (ordered_by ByStartDate df)
  /\ StronglySorted (fun a b => (Segment_Cost a <= Segment_Cost b)%Q)
                    (ordered_by ByLowestCost df).
Proof.
  split; [apply sort_values_date_sorted|apply sort_values_num_sorted].
Qed.

Lemma ordered_by_not_nil (rule : order_rule) (df : list Segment) :
  df <> [] -> ordered_by rule df <> [].
Proof. destruct rule; apply sort_values_not_nil. Qed.

Lemma ordered_by_nil (rule : order_rule) : ordered_by rule [] = [].
Proof. destruct rule; apply sort_values_nil. Qed.

Lemma actual_dates_not_nil (ordered : list Segment) :
  ordered <> [] -> actual_dates ordered <> [].
Proof.
  intros Hne Hnil. apply Hne.
  destruct (Series_min_is_minimum (map Start_Date ordered)) as [c [Hc _]].
  - intros H. apply map_eq_nil in H. contradiction.
  - rewrite (actual_dates_pack ordered c Hc) in Hnil.
    rewrite <- (pack_segments ordered c), Hnil. reflexivity.
Qed.

(** On a non-empty working set a sequencing method returns the aggregated
    frame of the packed rows. *)
Lemma sequence_returns (self : FiberSequencer) (rule : order_rule) :
  data self <> [] ->
  exists cols,
    sequence rule self
    = Return (mkFrame (aggregated (actual_dates (ordered_by rule (data self)))) cols).
Proof.
  intros Hne.
  destruct (cumulative_metrics_returns (actual_dates (ordered_by rule (data self)))
              (actual_dates_not_nil _ (ordered_by_not_nil rule _ Hne)))
    as [cols [Hret _]].
  exists cols. now rewrite sequence_unfold.
Qed.

Lemma sequence_raises_on_empty (self : FiberSequencer) (rule : order_rule) :
  data self = [] ->
  sequence rule self
  = Raise (ValueError "attempt to get argmax of an empty sequence").
Proof.
  intros Hempty. rewrite sequence_unfold, Hempty, ordered_by_nil, actual_dates_nil.
  apply cumulative_metrics_empty.
Qed.

(** A frame that a sequencing method returns is never empty. *)
Lemma sequence_returns_rows (self : FiberSequencer) (rule : order_rule)
    (frame : Frame) :
  sequence rule self = Return frame -> rows frame <> [].
Proof.
  intros Hret.
  destruct (data self) as [|s rest] eqn:Hdata.
  - rewrite (sequence_raises_on_empty self rule Hdata) in Hret. discriminate Hret.
  - assert (Hne : data self <> []) by (rewrite Hdata; discriminate).
    destruct (sequence_returns self rule Hne) as [cols Hret'].
    rewrite Hret in Hret'. injection Hret' as ->. cbn [rows].
    apply aggregated_not_nil, actual_dates_not_nil, ordered_by_not_nil, Hne.
Qed.

(** C1: on a non-empty working set, under either ordering rule, the dates
    the packer assigns are those of the packing fold over the ordered rows,
    started with the cursor at the minimum planned start: each row starts at
    the later of its planned start and the cursor, ends its duration in days
    later, and hands its end to the next row as the cursor.  The method
    returns a frame that holds exactly these rows. *)
Theorem packer_follows_cursor (self : FiberSequencer) (rule : order_rule) :
  data self <> [] ->
  exists cursor frame,
    is_minimum cursor (map Start_Date (ordered_by rule (data self)))
    /\ actual_dates (ordered_by rule (data self))
       = pack cursor (ordered_by rule (data self))
    /\ sequence rule self = Return frame
    /\ Permutation (pack cursor (ordered_by rule (data self)))
                   (map sched (rows frame)).
Proof.
  intros Hne.
  pose proof (ordered_by_not_nil rule _ Hne) as Hord.
  destruct (Series_min_is_minimum (map Start_Date (ordered_by rule (data self))))
    as [cursor [Hmin Hismin]].
  { intros H. apply map_eq_nil in H. contradiction. }
  destruct (cumulative_metrics_returns (actual_dates (ordered_by rule (data self)))
              (actual_dates_not_nil _ Hord)) as [cols [Hret _]].
  exists cursor, (mkFrame (aggregated (actual_dates (ordered_by rule (data self)))) cols).
  split; [exact Hismin|]. split; [now apply actual_dates_pack|].
  split; [now rewrite sequence_unfold|].
  cbn [rows]. destruct (aggregated_columns (actual_dates (ordered_by rule (data self))))
    as [Hsched _].
  rewrite Hsched, <- (actual_dates_pack _ _ Hmin). apply sort_values_perm.
Qed.

(** C3: on a non-empty working set, under either ordering rule, no packed
    row starts before its planned start and no packed row ends after the next
    one starts.  The method returns a frame whose rows all respect their
    planned start; when every duration is positive the frame keeps the packed
    order, so its consecutive rows do not overlap either. *)
Theorem packed_schedule_invariants (self : FiberSequencer) (rule : order_rule) :
  data self <> [] ->
  let packed := actual_dates (ordered_by rule (data self)) in
  map seg packed = ordered_by rule (data self)
  /\ start_floor packed
  /\ no_overlap packed
  /\ exists frame,
       sequence rule self = Return frame
       /\ start_floor (map sched (rows frame))
       /\ (Forall (fun s => 0 < Duration s) (data self) ->
           map sched (rows frame) = packed /\ no_overlap (map sched (rows frame))).
Proof.
  intros Hne packed.
  pose proof (ordered_by_not_nil rule _ Hne) as Hord.
  destruct (Series_min_is_minimum (map Start_Date (ordered_by rule (data self))))
    as [cursor [Hmin _]].
  { intros H. apply map_eq_nil in H. contradiction. }
  assert (Hpack : packed = pack cursor (ordered_by rule (data self)))
    by now apply actual_dates_pack.
  destruct (cumulative_metrics_returns packed (actual_dates_not_nil _ Hord))
    as [cols [Hret _]].
  destruct (aggregated_columns packed) as [Hsched _].
  split; [rewrite Hpack; apply pack_segments|].
  split; [rewrite Hpack; apply pack_start_floor|].
  split; [rewrite Hpack; apply pack_no_overlap|].
  exists (mkFrame (aggregated packed) cols). cbn [rows].
  split; [now rewrite sequence_unfold|]. split.
  - rewrite Hsched. unfold start_floor.
    eapply Permutation_Forall; [apply sort_values_perm|].
    rewrite Hpack. apply pack_start_floor.
  - intros Hdur.
    assert (Heq : packed = sort_values Z.leb Actual_Start packed).
    { apply (sorted_permutation_unique Actual_Start).
      - rewrite Hpack. apply pack_starts_increase.
        eapply Permutation_Forall; [apply ordered_by_perm|exact Hdur].
      - apply sort_values_perm.
      - apply sort_values_date_sorted. }
    rewrite Hsched, <- Heq. split; [reflexivity|].
    rewrite Hpack. apply pack_no_overlap.
Qed.

(** C4: on an empty working set both sequencing methods raise (the
    [ValueError] of the first milestone lookup), and no frame that they
    return is ever empty. *)
Theorem sequencing_empty_fails (self : FiberSequencer) (rule : order_rule) :
  (data self = [] ->
   sequence rule self
   = Raise (ValueError "attempt to get argmax of an empty sequence"))
  /\ (forall frame, sequence rule self = Return frame -> rows frame <> []).
Proof.
  split.
  - apply sequence_raises_on_empty.
  - apply sequence_returns_rows.
Qed.

End SequencingProperties.

(** The example scenario: by start date A runs days 0-10, B 10-15 and
    C 20-25; by lowest cost C runs days 20-25, B 25-30 and A 30-40. *)


Example scenario_by_start_date :
  in_days (sequence ByStartDate (init sample))
  = [("A"%string, 0, 10); ("B"%string, 10, 15); ("C"%string, 20, 25)].
Proof. vm_compute. reflexivity. Qed.

Example scenario_by_lowest_cost :
  in_days (sequence ByLowestCost (init sample))
  = [("C"%string, 20, 25); ("B"%string, 25, 30); ("A"%string, 30, 40)].
Proof. vm_compute. reflexivity. Qed.

Lemma sample_not_empty : data (init sample) <> [].
Proof. discriminate. Qed.

Lemma packer_follows_cursor_witness :
  exists cursor frame,
    is_minimum cursor (map Start_Date (ordered_by ByLowestCost (data (init sample))))
    /\ actual_dates (ordered_by ByLowestCost (data (init sample)))
       = pack cursor (ordered_by ByLowestCost (data (init sample)))
    /\ sequence ByLowestCost (init sample) = Return frame
    /\ Permutation (pack cursor (ordered_by ByLowestCost (data (init sample))))
                   (map sched (rows frame)).
Proof.
  exact (packer_follows_cursor (init sample) ByLowestCost sample_not_empty).
Defined.

Lemma packed_schedule_invariants_witness :
  start_floor (actual_dates (ordered_by ByLowestCost (data (init sample))))
  /\ no_overlap (actual_dates (ordered_by ByLowestCost (data (init sample)))).
Proof.
  pose proof (packed_schedule_invariants (init sample) ByLowestCost sample_not_empty)
    as [_ [Hfloor [Hover _]]].
  split; [exact Hfloor|exact Hover].
Defined.

Lemma sequencing_empty_fails_witness :
  sequence ByStartDate (init [])
  = Raise (ValueError "attempt to get argmax of an empty sequence").
Proof.
  exact (proj1 (sequencing_empty_fails (init []) ByStartDate) eq_refl).
Defined.

(** ** Running totals *)

Lemma last_cons {A : Type} (l : list A) :
  forall x d, last (x :: l) d = last l x.
Proof.
  induction l as [|y rest IH]; intros x d; [reflexivity|].
  change (last (x :: y :: rest) d) with (last (y :: rest) d).
  now rewrite !IH.
Qed.

Section RunningTotals.

Context {sorter : Sorter} {arith : Float64}.

Lemma last_cumsum_from (col : list Q) :
  forall acc, last (cumsum_from acc col) acc = fold_left fadd col acc.
Proof.
  induction col as [|x rest IH]; intros acc; [reflexivity|].
  cbn [cumsum_from fold_left]. now rewrite last_cons, IH.
Qed.

(** The last running total is the float sum taken from left to right. *)
Lemma last_cumsum_running (col : list Q) : last (cumsum col) 0%Q = running_sum col.
Proof.
  destruct col as [|x rest]; [reflexivity|].
  cbn [cumsum running_sum]. now rewrite last_cons, last_cumsum_from.
Qed.

Lemma fadd_is_float (x y : Q) : is_float (fadd x y).
Proof. apply fl_idempotent. Qed.

(** Adding a non-negative float to a float does not give less. *)
Lemma fadd_grows (acc x : Q) :
  is_float acc -> (0 <= x)%Q -> (acc <= fadd acc x)%Q.
Proof.
  intros Hacc Hx. unfold is_float in Hacc. rewrite <- Hacc at 1.
  apply fl_monotone.
  rewrite <- (Qplus_0_r acc) at 1. apply Qplus_le_r. exact Hx.
Qed.

Lemma cumsum_from_non_decreasing (col : list Q) :
  Forall (fun x => (0 <= x)%Q) col ->
  forall acc,
    is_float acc ->
    Forall (fun y => (acc <= y)%Q) (cumsum_from acc col)
    /\ non_decreasing (cumsum_from acc col).
Proof.
  unfold non_decreasing.
  induction 1 as [|x rest Hx Hrest IH]; intros acc Hacc; cbn [cumsum_from].
  - split; constructor.
  - destruct (IH (fadd acc x) (fadd_is_float acc x)) as [Hlow Hsorted].
    pose proof (fadd_grows acc x Hacc Hx) as Hstep.
    split.
    + constructor; [exact Hstep|].
      eapply Forall_impl; [|exact Hlow]. intros y Hy.
      eapply Qle_trans; [exact Hstep|exact Hy].
    + constructor; [exact Hsorted|exact Hlow].
Qed.

(** The running totals of non-negative floats never go down. *)
Lemma cumsum_non_decreasing (col : list Q) :
  Forall (fun x => is_float x /\ (0 <= x)%Q) col -> non_decreasing (cumsum col).
Proof.
  intros Hcol. destruct col as [|x rest]; cbn [cumsum]; [constructor|].
  inversion Hcol as [|? ? [Hfloat _] Hrest]; subst.
  assert (Hpos : Forall (fun x => (0 <= x)%Q) rest).
  { eapply Forall_impl; [|exact Hrest]. now intros y [_ Hy]. }
  destruct (cumsum_from_non_decreasing rest Hpos x Hfloat) as [Hlow Hsorted].
  now constructor.
Qed.

(** C9, as the code has it: on a non-empty packed schedule the aggregator
    returns the rows in order of actual start with the running float sums of
    distance and total cost; the running distance never goes down when no
    distance is negative, the running cost never goes down when no total cost
    is negative, and the last running totals are the float sums of distance
    and of total cost added up from the first row to the last. *)
Theorem cumulative_totals (df : list Scheduled) :
  df <> [] ->
  exists frame,
    _calculate_cumulative_metrics df = Return frame
    /\ Permutation df (map sched (rows frame))
    /\ map Cumulative_Miles (rows frame)
       = cumsum (map row_Miles (map sched (rows frame)))
    /\ map Cumulative_Cost (rows frame)
       = cumsum (map row_Cost (map sched (rows frame)))
    /\ (Forall (fun r => is_float (row_Miles r) /\ (0 <= row_Miles r)%Q) df ->
        non_decreasing (map Cumulative_Miles (rows frame)))
    /\ (Forall (fun r => is_float (row_Cost r) /\ (0 <= row_Cost r)%Q) df ->
        non_decreasing (map Cumulative_Cost (rows frame)))
    /\ last (map Cumulative_Miles (rows frame)) 0%Q
       = running_sum (map row_Miles (map sched (rows frame)))
    /\ last (map Cumulative_Cost (rows frame)) 0%Q
       = running_sum (map row_Cost (map sched (rows frame))).
Proof.
  intros Hne.
  destruct (cumulative_metrics_returns df Hne) as [cols [Hret _]].
  destruct (aggregated_columns df) as [Hsched [Hmiles Hcost]].
  pose proof (sort_values_perm Z.leb Actual_Start df) as Hperm.
  exists (mkFrame (aggregated df) cols). cbn [rows].
  rewrite Hsched, Hmiles, Hcost.
  split; [exact Hret|]. split; [exact Hperm|].
  split; [reflexivity|]. split; [reflexivity|].
  split; [|split; [|split]].
  - intros Hpos. apply cumsum_non_decreasing.
    apply (proj2 (Forall_map row_Miles (fun x => is_float x /\ (0 <= x)%Q) _)).
    eapply Permutation_Forall; [exact Hperm|exact Hpos].
  - intros Hpos. apply cumsum_non_decreasing.
    apply (proj2 (Forall_map row_Cost (fun x => is_float x /\ (0 <= x)%Q) _)).
    eapply Permutation_Forall; [exact Hperm|exact Hpos].
  - apply last_cumsum_running.
  - apply last_cumsum_running.
Qed.

End RunningTotals.

(** In exact arithmetic the last running total is the sum of the column. *)
Lemma last_cumsum (col : list Q) :
  (last (@cumsum exact_arithmetic col) 0 == Series_sum col)%Q.
Proof.
  destruct col as [|x rest]; [reflexivity|].
  cbn [cumsum]. rewrite last_cons, last_cumsum_from, Series_sum_cons.
  change (@fadd exact_arithmetic) with Qplus.
  apply fold_Qplus_acc.
Qed.

Lemma sample_rows_are_floats :
  Forall (fun r => (is_float (row_Miles r) /\ (0 <= row_Miles r)%Q)
                   /\ (is_float (row_Cost r) /\ (0 <= row_Cost r)%Q))
         (actual_dates sample).
Proof.
  repeat constructor; discriminate.
Qed.

Lemma cumulative_totals_witness :
  exists frame,
    _calculate_cumulative_metrics (actual_dates sample) = Return frame
    /\ non_decreasing (map Cumulative_Miles (rows frame))
    /\ non_decreasing (map Cumulative_Cost (rows frame)).
Proof.
  assert (Hne : actual_dates sample <> []) by discriminate.
  destruct (cumulative_totals (actual_dates sample) Hne)
    as [frame [Hret [_ [_ [_ [Hmiles [Hcost _]]]]]]].
  exists frame. split; [exact Hret|]. split.
  - apply Hmiles. eapply Forall_impl; [|exact sample_rows_are_floats].
    now intros r [H _].
  - apply Hcost. eapply Forall_impl; [|exact sample_rows_are_floats].
    now intros r [_ H].
Defined.

(** C9 fails as stated: sequencing the working set with the credit by start
    date gives the running costs 100000 and then 97000. *)
Lemma cumulative_cost_can_decrease :
  cumulative_costs (sequence ByStartDate (init credit_set)) = [100000; 97000]%Q
  /\ ~ non_decreasing (cumulative_costs (sequence ByStartDate (init credit_set))).
Proof.
  assert (Hrun : cumulative_costs (sequence ByStartDate (init credit_set))
                 = [100000; 97000]%Q) by (vm_compute; reflexivity).
  split; [exact Hrun|]. rewrite Hrun. intros Hsorted.
  inversion Hsorted as [|? ? _ Hall]; subst.
  inversion Hall as [|? ? Hle _]; subst.
  revert Hle. unfold Qle. cbn. lia.
Qed.

(** ** Milestones *)

(** [first_reaching] finds the first row at or above the threshold: every
    row before it is below. *)
Lemma first_reaching_is_first (threshold : Q) (result : list CumRow) (row : CumRow) :
  first_reaching threshold result = Some row ->
  exists before after,
    result = before ++ row :: after
    /\ Forall (fun r => ~ (threshold <= Cumulative_Miles r)%Q) before
    /\ (threshold <= Cumulative_Miles row)%Q.
Proof.
  unfold first_reaching.
  induction result as [|r rest IH]; cbn [find]; [discriminate|].
  destruct (Qle_bool threshold (Cumulative_Miles r)) eqn:Er.
  - intros H. injection H as <-. exists [], rest.
    split; [reflexivity|]. split; [constructor|now apply Qle_bool_iff].
  - intros H. destruct (IH H) as [before [after [Heq [Hbefore Hrow]]]].
    exists (r :: before), after. rewrite Heq.
    split; [reflexivity|]. split; [|exact Hrow].
    constructor; [|exact Hbefore].
    intros Hle. apply Qle_bool_iff in Hle. congruence.
Qed.

Lemma first_reaching_none (threshold : Q) (result : list CumRow) :
  first_reaching threshold result = None <->
  Forall (fun r => ~ (threshold <= Cumulative_Miles r)%Q) result.
Proof.
  unfold first_reaching. split.
  - intros H. destruct (find_none_mask _ _ H) as [_ Hall].
    eapply Forall_impl; [|exact Hall]. cbn. intros r Hr Hle.
    apply Qle_bool_iff in Hle. congruence.
  - induction 1 as [|r rest Hr _ IH]; cbn [find]; [reflexivity|].
    destruct (Qle_bool threshold (Cumulative_Miles r)) eqn:Er; [|exact IH].
    apply Qle_bool_iff in Er. contradiction.
Qed.

Section MilestoneColumns.

Context {arith : Float64}.

(** When some row reaches the threshold, the milestone columns hold the end
    date and the running cost of the first such row. *)
Lemma milestone_of_first_reaching (result : list CumRow)
    (total_miles milestone : Q) (row : CumRow) :
  first_reaching (fmul total_miles milestone) result = Some row ->
  milestone_columns result total_miles milestone
  = Return (mkMilestoneCols (trunc (Fin (milestone * 100)))
              (Some (Actual_End (sched row))) (Some (Cumulative_Cost row))).
Proof.
  intros Hfirst. rewrite milestone_columns_row. unfold milestone_row.
  now rewrite Hfirst.
Qed.

(** When no row reaches the threshold, the columns are not left empty: they
    hold the end date and the running cost of the frame's first row. *)
Lemma milestone_when_none_reaches (row : CumRow) (rest : list CumRow)
    (total_miles milestone : Q) :
  first_reaching (fmul total_miles milestone) (row :: rest) = None ->
  milestone_columns (row :: rest) total_miles milestone
  = Return (mkMilestoneCols (trunc (Fin (milestone * 100)))
              (Some (Actual_End (sched row))) (Some (Cumulative_Cost row))).
Proof.
  intros Hnone. rewrite milestone_columns_row. unfold milestone_row.
  now rewrite Hnone.
Qed.

(** The branch that writes [None] is never taken. *)
Lemma milestone_columns_never_none (result : list CumRow)
    (total_miles milestone : Q) (cols : MilestoneCols) :
  milestone_columns result total_miles milestone = Return cols ->
  Day cols <> None /\ Cost cols <> None.
Proof.
  rewrite milestone_columns_row.
  destruct (milestone_row (fmul total_miles milestone) result); [|discriminate].
  intros H. injection H as <-. split; discriminate.
Qed.

End MilestoneColumns.

Lemma In_last {A : Type} (l : list A) (d : A) : l <> [] -> In (last l d) l.
Proof.
  induction l as [|x rest IH]; [contradiction|]. intros _.
  destruct rest as [|y rest]; [now left|].
  right. apply IH. discriminate.
Qed.

Section MilestoneReached.

Context {sorter : Sorter}.

(** In exact arithmetic, with no negative distance, a threshold between 0 and
    1 is always reached by some row: the last one at the latest. *)
Lemma milestone_reached (df : list Scheduled) (milestone : Q) :
  df <> [] ->
  Forall (fun r => (0 <= row_Miles r)%Q) df ->
  (0 <= milestone)%Q -> (milestone <= 1)%Q ->
  first_reaching
    (Series_sum (map (fun r => row_Miles (sched r))
                     (@aggregated sorter exact_arithmetic df)) * milestone)
    (@aggregated sorter exact_arithmetic df) <> None.
Proof.
  intros Hne Hpos Hm0 Hm1 Hnone.
  apply first_reaching_none in Hnone. rewrite Forall_forall in Hnone.
  destruct (aggregated_columns df) as [Hsched [Hmiles _]].
  pose proof (sort_values_perm Z.leb Actual_Start df) as Hperm.
  set (sorted := sort_values Z.leb Actual_Start df) in *.
  assert (Htotal : map (fun r => row_Miles (sched r)) (aggregated df)
                   = map row_Miles sorted).
  { rewrite <- Hsched. now rewrite map_map. }
  rewrite Htotal in Hnone.
  assert (Hcum : cumsum (map row_Miles sorted) <> []).
  { intros Hnil. apply (aggregated_not_nil df Hne).
    apply (f_equal (@length Q)) in Hnil.
    rewrite <- Hmiles, length_map in Hnil.
    now apply length_zero_iff_nil. }
  pose proof (In_last _ 0%Q Hcum) as Hin.
  rewrite <- Hmiles in Hin at 2. apply in_map_iff in Hin.
  destruct Hin as [row [Hrow Hin]].
  apply (Hnone row Hin). rewrite Hrow, last_cumsum.
  assert (Hsum : (0 <= Series_sum (map row_Miles sorted))%Q).
  { apply Series_sum_nonneg, Forall_map.
    eapply Permutation_Forall; [exact Hperm|exact Hpos]. }
  rewrite <- (Qmult_1_r (Series_sum (map row_Miles sorted))) at 2.
  rewrite !(Qmult_comm (Series_sum (map row_Miles sorted))).
  now apply Qmult_le_compat_r.
Qed.

End MilestoneReached.


(** C5 on a schedule where no row reaches half of the total distance: the one
    segment has the distance -2, so its running distance -2 is below the
    threshold -1.  The 50% columns hold that row's end date and running cost,
    not [None]. *)
Theorem milestone_recorded_when_none_reaches :
  match sequence ByStartDate (init [seg_N]) with
  | Return frame =>
      first_reaching
        (Series_sum (map (fun r => row_Miles (sched r)) (rows frame)) * (1 # 2))
        (rows frame) = None
      /\ nth_error (milestone_cols frame) 0
         = Some (mkMilestoneCols 50 (Some (timedelta 5)) (Some 10000%Q))
  | Raise _ => False
  end.
Proof.
  vm_compute. split; reflexivity.
Qed.

(** ** What the rounding can change

    [coarse_arithmetic] keeps a number between -1 and 1 as it is and rounds
    any other away from zero to a whole number, and its sum of a column adds
    from the last cell to the first.  It is not binary64; it meets the
    contract of [Float64], and so shows what the contract, and with it every
    statement proved for an arbitrary arithmetic, leaves open. *)

(** Rounding away from zero to a whole number, outside [-1, 1]. *)
Definition coarse (x : Q) : Q :=
  if Qle_bool (- (1)) x && Qle_bool x 1 then x
  else if Qle_bool 0 x then inject_Z (Qceiling x) else inject_Z (Qfloor x).

(** The rounded sum of a column, added from its last cell to its first. *)
Definition sum_from_the_right (col : list Q) : Q :=
  fold_right (fun x acc => coarse (x + acc)) 0%Q col.

Lemma coarse_cases (x : Q) :
  ((- (1) <= x)%Q /\ (x <= 1)%Q /\ coarse x = x)
  \/ ((1 < x)%Q /\ coarse x = inject_Z (Qceiling x))
  \/ ((x < - (1))%Q /\ coarse x = inject_Z (Qfloor x)).
Proof.
  unfold coarse.
  destruct (Qle_bool (- (1)) x) eqn:Elow; cbn [andb].
  - apply Qle_bool_iff in Elow.
    destruct (Qle_bool x 1) eqn:Ehigh.
    + apply Qle_bool_iff in Ehigh. now left.
    + assert (Hx : (1 < x)%Q).
      { apply Qnot_le_lt. intros H. apply Qle_bool_iff in H. congruence. }
      right. left. split; [exact Hx|].
      assert (H0 : Qle_bool 0 x = true).
      { apply Qle_bool_iff, Qlt_le_weak. eapply Qlt_trans; [|exact Hx]. reflexivity. }
      now rewrite H0.
  - assert (Hx : (x < - (1))%Q).
    { apply Qnot_le_lt. intros H. apply Qle_bool_iff in H. congruence. }
    right. right. split; [exact Hx|].
    assert (H0 : Qle_bool 0 x = false).
    { destruct (Qle_bool 0 x) eqn:E; [|reflexivity].
      apply Qle_bool_iff in E. exfalso. apply (Qlt_irrefl x).
      eapply Qlt_le_trans; [exact Hx|]. eapply Qle_trans; [|exact E]. discriminate. }
    now rewrite H0.
Qed.

Lemma coarse_monotone (x y : Q) : (x <= y)%Q -> (coarse x <= coarse y)%Q.
Proof.
  intros Hxy.
  pose proof (Qle_ceiling x) as Hcx. pose proof (Qle_ceiling y) as Hcy.
  pose proof (Qfloor_le x) as Hfx. pose proof (Qfloor_le y) as Hfy.
  destruct (coarse_cases x) as [[Hx1 [Hx2 ->]]|[[Hx ->]|[Hx ->]]];
    destruct (coarse_cases y) as [[Hy1 [Hy2 ->]]|[[Hy ->]|[Hy ->]]].
  - exact Hxy.
  - eapply Qle_trans; [exact Hxy|exact Hcy].
  - exfalso. apply (Qlt_irrefl y).
    eapply Qlt_le_trans; [exact Hy|]. eapply Qle_trans; [exact Hx1|exact Hxy].
  - exfalso. apply (Qlt_irrefl x).
    eapply Qle_lt_trans; [exact Hxy|]. eapply Qle_lt_trans; [exact Hy2|exact Hx].
  - rewrite <- Zle_Qle. now apply Qceiling_resp_le.
  - exfalso. apply (Qlt_irrefl x).
    eapply Qle_lt_trans; [exact Hxy|]. eapply Qlt_trans; [exact Hy|].
    eapply Qlt_trans; [|exact Hx]. reflexivity.
  - eapply Qle_trans; [exact Hfx|]. eapply Qle_trans; [|exact Hy1].
    now apply Qlt_le_weak.
  - eapply Qle_trans; [exact Hfx|]. eapply Qle_trans; [exact Hxy|exact Hcy].
  - rewrite <- Zle_Qle. now apply Qfloor_resp_le.
Qed.

Lemma coarse_idempotent (x : Q) : (coarse (coarse x) == coarse x)%Q.
Proof.
  pose proof (Qle_ceiling x) as Hcx. pose proof (Qfloor_le x) as Hfx.
  destruct (coarse_cases x) as [[Hx1 [Hx2 Hx]]|[[Hx Hc]|[Hx Hc]]].
  - now rewrite !Hx.
  - rewrite Hc.
    destruct (coarse_cases (inject_Z (Qceiling x)))
      as [[_ [H _]]|[[_ ->]|[H _]]].
    + exfalso. apply (Qlt_irrefl 1).
      eapply Qlt_le_trans; [exact Hx|]. eapply Qle_trans; [exact Hcx|exact H].
    + now rewrite Qceiling_Z.
    + exfalso. apply (Qlt_irrefl x).
      eapply Qle_lt_trans; [exact Hcx|]. eapply Qlt_trans; [exact H|].
      eapply Qlt_trans; [|exact Hx]. reflexivity.
  - rewrite Hc.
    destruct (coarse_cases (inject_Z (Qfloor x)))
      as [[H [_ _]]|[[H _]|[_ ->]]].
    + exfalso. apply (Qlt_irrefl x).
      eapply Qlt_le_trans; [exact Hx|]. eapply Qle_trans; [exact H|exact Hfx].
    + exfalso. apply (Qlt_irrefl x).
      eapply Qlt_trans; [exact Hx|]. eapply Qlt_trans; [|eapply Qlt_le_trans; [exact H|exact Hfx]].
      reflexivity.
    + now rewrite Qfloor_Z.
Qed.

Lemma coarse_nonzero (x : Q) : ~ (x == 0)%Q -> ~ (coarse x == 0)%Q.
Proof.
  intros Hne.
  pose proof (Qle_ceiling x) as Hcx. pose proof (Qfloor_le x) as Hfx.
  destruct (coarse_cases x) as [[_ [_ ->]]|[[Hx ->]|[Hx ->]]]; [exact Hne| |];
    intros H0; rewrite H0 in *; apply (Qlt_irrefl x).
  - eapply Qle_lt_trans; [exact Hcx|]. eapply Qlt_trans; [|exact Hx]. reflexivity.
  - eapply Qlt_le_trans; [exact Hx|]. eapply Qle_trans; [|exact Hfx]. discriminate.
Qed.

Lemma sum_from_the_right_nonneg (col : list Q) :
  Forall (fun x => (0 <= x)%Q) col -> (0 <= sum_from_the_right col)%Q.
Proof.
  induction 1 as [|x rest Hx _ IH]; [discriminate|].
  cbn [sum_from_the_right fold_right]. fold (sum_from_the_right rest).
  change 0%Q with (coarse 0). apply coarse_monotone.
  rewrite <- (Qplus_0_r 0). now apply Qplus_le_compat.
Qed.

Definition coarse_arithmetic : Float64 := {|
  fl := coarse;
  fl_monotone := coarse_monotone;
  fl_idempotent := coarse_idempotent;
  fl_zero := Qeq_refl 0;
  fl_nonzero := coarse_nonzero;
  np_sum := sum_from_the_right;
  np_sum_nil := eq_refl;
  np_sum_nonneg := sum_from_the_right_nonneg
|}.

(** Three short segments, one day each. *)
Definition short_rows : list Segment :=
  [mkSegment "P" (timedelta 0) 1 1 1000 300 (3 # 10);
   mkSegment "Q" (timedelta 1) 1 1 1000 600 (6 # 10);
   mkSegment "R2" (timedelta 2) 1 1 1000 600 (6 # 10)].

(** Under the coarse arithmetic three segments of 0.3, 0.6 and 0.6 miles have
    the running distances 0.3, 0.9 and 2, while the sum of their distances is
    3: the last running distance falls short of the sum, no row reaches the
    100% threshold, and the 100% columns hold the end date and the running
    cost of the first row. *)
Remark running_total_can_fall_short :
  let frame :=
    frame_of (sequence (arith := coarse_arithmetic) ByStartDate (init short_rows)) in
  map Qred (map Cumulative_Miles (rows frame)) = [3 # 10; 9 # 10; 2]%Q
  /\ np_sum (Float64 := coarse_arithmetic)
            (map (fun r => row_Miles (sched r)) (rows frame)) = 3%Q
  /\ first_reaching
       (fmul (arith := coarse_arithmetic)
             (np_sum (Float64 := coarse_arithmetic)
                     (map (fun r => row_Miles (sched r)) (rows frame))) 1)
       (rows frame) = None
  /\ nth_error (milestone_cols frame) 2
     = Some (mkMilestoneCols 100 (Some (timedelta 1)) (Some 300%Q)).
Proof.
  vm_compute. repeat split.
Qed.

(** ** Early efficiency *)






(** With four segments the first row alone is the early part: 20 miles for
    100000 by start date, 5 miles for 30000 by lowest cost. *)
Example early_efficiency_of_four :
  let analysis :=
    get_pros_cons_analysis
      (frame_of (sequence ByStartDate (init (sample ++ [seg_D]))))
      (frame_of (sequence ByLowestCost (init (sample ++ [seg_D])))) in
  early_efficiency (fst analysis) = Fin (20 / 100000)
  /\ early_efficiency (snd analysis) = Fin (5 / 30000).
Proof. vm_compute. split; reflexivity. Qed.

(** ** Ties

    The sorting contract says nothing about rows with equal keys.  Segments
    A and B share their planned start; one routine that meets the contract
    keeps them in input order and another one swaps them, so the order of
    tied rows is decided by the sorting routine alone. *)


Lemma reversing_sort_perm {A : Type} (leb : A -> A -> bool) (l : list A) :
  Permutation l (reversing_sort leb l).
Proof.
  unfold reversing_sort.
  eapply perm_trans; [apply Permutation_rev|apply insertion_sort_perm].
Qed.

Lemma reversing_sort_sorted {A : Type} (leb : A -> A -> bool) :
  is_total leb -> is_transitive leb ->
  forall l, StronglySorted (fun a b => leb a b = true) (reversing_sort leb l).
Proof.
  intros Htot Htr l. now apply insertion_sort_sorted.
Qed.

Definition reversing_sorter : Sorter := {|
  sort_by := @reversing_sort;
  sort_by_perm := @reversing_sort_perm;
  sort_by_sorted := @reversing_sort_sorted
|}.

Remark tie_kept_by_insertion_sort :
  @ordered_by insertion_sorter ByStartDate [seg_A; seg_B] = [seg_A; seg_B].
Proof. reflexivity. Qed.

Remark tie_swapped_by_reversing_sort :
  @ordered_by reversing_sorter ByStartDate [seg_A; seg_B] = [seg_B; seg_A].
Proof. reflexivity. Qed.

(** * Further properties of the engine and of the functions that read its
      frames *)

(** ** The frames the sequencing methods return *)

Lemma is_minimum_perm (x : Z) (col col' : list Z) :
  Permutation col col' -> is_minimum x col -> is_minimum x col'.
Proof.
  intros Hperm [Hin Hall]. split.
  - eapply Permutation_in; eassumption.
  - eapply Permutation_Forall; eassumption.
Qed.

Lemma is_minimum_unique (x y : Z) (col : list Z) :
  is_minimum x col -> is_minimum y col -> x = y.
Proof.
  intros [Hx Hxall] [Hy Hyall]. rewrite Forall_forall in Hxall, Hyall.
  specialize (Hxall y Hy). specialize (Hyall x Hx). lia.
Qed.

Section ReturnedFrames.

Context {sorter : Sorter} {arith : Float64}.

(** The frame a method returns on a non-empty working set, spelled out: the
    aggregated packing of the ordered rows, the cursor starting at the least
    planned start of the working set. *)
Lemma sequence_frame (self : FiberSequencer) (rule : order_rule) :
  data self <> [] ->
  exists cursor cols,
    is_minimum cursor (map Start_Date (data self))
    /\ sequence rule self
       = Return (mkFrame (aggregated (pack cursor (ordered_by rule (data self)))) cols)
    /\ Forall2
         (fun m c =>
            milestone_columns
              (aggregated (pack cursor (ordered_by rule (data self))))
              (np_sum
                 (map (fun r => row_Miles (sched r))
                      (aggregated (pack cursor (ordered_by rule (data self))))))
              m = Return c)
         milestones cols.
Proof.
  intros Hne.
  pose proof (ordered_by_not_nil rule _ Hne) as Hord.
  destruct (Series_min_is_minimum (map Start_Date (ordered_by rule (data self))))
    as [cursor [Hmin Hismin]].
  { intros H. apply map_eq_nil in H. contradiction. }
  pose proof (actual_dates_pack _ _ Hmin) as Hpack.
  destruct (cumulative_metrics_returns (actual_dates (ordered_by rule (data self)))
              (actual_dates_not_nil _ Hord)) as [cols [Hret Hcols]].
  exists cursor, cols. rewrite <- Hpack. split; [|split].
  - eapply is_minimum_perm; [|exact Hismin].
    apply Permutation_map, Permutation_sym, ordered_by_perm.
  - now rewrite sequence_unfold.
  - exact Hcols.
Qed.

(** A method returns only on a non-empty working set. *)
Lemma sequence_return_inv (self : FiberSequencer) (rule : order_rule)
    (frame : Frame) :
  sequence rule self = Return frame -> data self <> [].
Proof.
  intros Hret Hempty.
  rewrite (sequence_raises_on_empty self rule Hempty) in Hret. discriminate Hret.
Qed.

Lemma aggregated_segments (df : list Scheduled) :
  Permutation (map seg df) (map (fun r => seg (sched r)) (aggregated df)).
Proof.
  destruct (aggregated_columns df) as [Hsched _].
  rewrite <- (map_map sched seg), Hsched.
  apply Permutation_map, sort_values_perm.
Qed.

Lemma sequence_frame_segments (self : FiberSequencer) (rule : order_rule)
    (frame : Frame) :
  sequence rule self = Return frame ->
  Permutation (data self) (map (fun r => seg (sched r)) (rows frame)).
Proof.
  intros Hret.
  destruct (sequence_frame self rule (sequence_return_inv _ _ _ Hret))
    as [cursor [cols [_ [Hframe _]]]].
  rewrite Hret in Hframe. injection Hframe as ->. cbn [rows].
  eapply perm_trans; [apply (ordered_by_perm rule)|].
  rewrite <- (pack_segments (ordered_by rule (data self)) cursor) at 1.
  apply aggregated_segments.
Qed.

(** X1: each segment of the working set is scheduled exactly once: the segments
    of a returned frame are the working set in some order, and the frame has
    as many rows as the working set. *)
Theorem sequence_schedules_each_once (self : FiberSequencer) (rule : order_rule)
    (frame : Frame) :
  sequence rule self = Return frame ->
  Permutation (data self) (map (fun r => seg (sched r)) (rows frame))
  /\ length (rows frame) = length (data self).
Proof.
  intros Hret. pose proof (sequence_frame_segments self rule frame Hret) as Hperm.
  split; [exact Hperm|].
  apply Permutation_length in Hperm. now rewrite length_map in Hperm.
Qed.

Lemma sort_values_singleton {A K : Type} (leb : K -> K -> bool) (by_ : A -> K)
    (x : A) :
  sort_values leb by_ [x] = [x].
Proof.
  apply Permutation_length_1_inv, sort_values_perm.
Qed.

(** X2: a working set of one segment: under either rule the segment starts at
    its planned start, and all three milestones are its end date and its
    total cost, whatever the signs of its numbers. *)
Theorem sequence_single_segment (self : FiberSequencer) (rule : order_rule)
    (s : Segment) :
  data self = [s] ->
  let finish_date := Start_Date s + timedelta (Duration s) in
  sequence rule self
  = Return
      (mkFrame
         [mkCumRow (mkScheduled s (Start_Date s) finish_date)
                   (Miles s) (Segment_Cost s)]
         [mkMilestoneCols 50 (Some finish_date) (Some (Segment_Cost s));
          mkMilestoneCols 75 (Some finish_date) (Some (Segment_Cost s));
          mkMilestoneCols 100 (Some finish_date) (Some (Segment_Cost s))]).
Proof.
  intros Hdata finish_date.
  rewrite sequence_unfold, Hdata.
  assert (Hord : ordered_by rule [s] = [s])
    by (destruct rule; apply sort_values_singleton).
  rewrite Hord.
  assert (Hdates : actual_dates [s] = [mkScheduled s (Start_Date s) finish_date]).
  { rewrite (actual_dates_pack [s] (Start_Date s) eq_refl).
    cbn [pack]. now rewrite Z.max_id. }
  rewrite Hdates. unfold _calculate_cumulative_metrics.
  rewrite sort_values_singleton.
  cbn [map cumsum assign_Cumulative combine fst snd row_Miles row_Cost seg].
  unfold milestones. cbn [milestone_loop].
  rewrite !milestone_columns_row. unfold milestone_row, first_reaching.
  cbn [find hd_error].
  repeat match goal with
         | |- context [Qle_bool ?a ?b] => destruct (Qle_bool a b)
         end; reflexivity.
Qed.

End ReturnedFrames.

Lemma sequence_schedules_each_once_witness :
  Permutation (data (init sample))
              (map (fun r => seg (sched r))
                   (rows (frame_of (sequence ByLowestCost (init sample))))).
Proof.
  apply (sequence_schedules_each_once (init sample) ByLowestCost
           (frame_of (sequence ByLowestCost (init sample)))).
  vm_compute. reflexivity.
Defined.

Lemma sequence_single_segment_witness :
  in_days (sequence ByLowestCost (init [seg_C])) = [("C"%string, 20, 25)].
Proof.
  rewrite (sequence_single_segment (init [seg_C]) ByLowestCost seg_C eq_refl).
  vm_compute. reflexivity.
Defined.

(** ** Offsets *)

Lemma fold_min_shift (k : Z) (rest : list Z) :
  forall x,
    fold_left Z.min (map (fun y => y + k) rest) (x + k)
    = fold_left Z.min rest x + k.
Proof.
  induction rest as [|y rest IH]; intros x; cbn [map fold_left]; [reflexivity|].
  rewrite Z.add_min_distr_r. apply IH.
Qed.

Lemma pack_shift (days : Z) (ordered : list Segment) :
  forall cursor,
    pack (cursor + timedelta days)
         (map (fun r => set_Start_Date r (Start_Date r + timedelta days)) ordered)
    = map (shift_scheduled days) (pack cursor ordered).
Proof.
  induction ordered as [|s rest IH]; intros cursor; [reflexivity|].
  cbn [map pack]. unfold shift_scheduled at 1. cbn [seg Actual_Start Actual_End].
  cbn [set_Start_Date Start_Date Duration].
  rewrite Z.add_max_distr_r.
  replace (Z.max (Start_Date s) cursor + timedelta days + timedelta (Duration s))
    with (Z.max (Start_Date s) cursor + timedelta (Duration s) + timedelta days)
    by lia.
  now rewrite IH.
Qed.

(** Moving every planned start by a number of days moves every date the
    dating loop assigns by as much, for rows taken in the same order. *)
Lemma actual_dates_shift (days : Z) (ordered : list Segment) :
  actual_dates (map (fun r => set_Start_Date r (Start_Date r + timedelta days))
                    ordered)
  = map (shift_scheduled days) (actual_dates ordered).
Proof.
  destruct ordered as [|s rest]; [reflexivity|].
  rewrite (actual_dates_pack (s :: rest) (fold_left Z.min (map Start_Date rest)
                                                     (Start_Date s)) eq_refl).
  rewrite <- pack_shift. apply actual_dates_pack.
  cbn [map Series_min set_Start_Date Start_Date]. f_equal.
  rewrite <- fold_min_shift. f_equal.
  rewrite !map_map. reflexivity.
Qed.

(** An offset alone, applied by [apply_parameters], moves the whole dating
    of the original rows by the offset: starts, ends and planned starts
    alike, so that no row's wait or length changes. *)
Theorem offset_moves_schedule {arith : Float64}
    (self : FiberSequencer) (days : Z) :
  actual_dates (data (fst (apply_parameters self days 1 None)))
  = map (shift_scheduled days) (actual_dates (original_data self))
  /\ Forall2 (fun before after =>
                Actual_End after - Actual_Start after
                = Actual_End before - Actual_Start before
                /\ Actual_Start after - Start_Date (seg after)
                   = Actual_Start before - Start_Date (seg before))
             (actual_dates (original_data self))
             (actual_dates (data (fst (apply_parameters self days 1 None)))).
Proof.
  assert (Hdata : data (fst (apply_parameters self days 1 None))
                  = map (fun r => set_Start_Date r (Start_Date r + timedelta days))
                        (original_data self)).
  { rewrite apply_parameters_ok by discriminate.
    cbn [fst set_data data cost_filter]. apply map_ext. intros s.
    now apply adjust_segment_same_rate. }
  rewrite Hdata, actual_dates_shift. split; [reflexivity|].
  induction (actual_dates (original_data self)) as [|r rest IH]; cbn [map].
  - constructor.
  - constructor; [|exact IH].
    unfold shift_scheduled. cbn [seg Actual_Start Actual_End set_Start_Date Start_Date].
    lia.
Qed.

(** ** Finishing dates *)

Lemma timedelta_nonneg (d : Z) : 0 <= d -> 0 <= timedelta d.
Proof. unfold timedelta, ns_per_day. lia. Qed.

Lemma timedelta_add (a b : Z) : timedelta (a + b) = timedelta a + timedelta b.
Proof. unfold timedelta. lia. Qed.

Lemma finish_total (ordered : list Segment) :
  Forall (fun s => 0 <= Duration s) ordered ->
  forall cursor, cursor + timedelta (total_duration ordered) <= finish cursor ordered.
Proof.
  unfold total_duration.
  induction 1 as [|s rest Hs _ IH]; intros cursor; cbn [finish map fold_right].
  - unfold timedelta. lia.
  - specialize (IH (Z.max (Start_Date s) cursor + timedelta (Duration s))).
    rewrite timedelta_add. lia.
Qed.

(** Whatever the order, the crew cannot be free before the work planned at
    [t] or later has been done, counted from the cursor and, when there is
    such work, from [t]. *)
Lemma finish_lower_bound (ordered : list Segment) :
  Forall (fun s => 0 <= Duration s) ordered ->
  forall cursor t,
    cursor + work_from t ordered <= finish cursor ordered
    /\ (Exists (fun s => t <= Start_Date s) ordered ->
        t + work_from t ordered <= finish cursor ordered).
Proof.
  induction 1 as [|s rest Hs _ IH]; intros cursor t; cbn [finish work_from].
  - split; [lia|]. intros Hex. inversion Hex.
  - destruct (IH (Z.max (Start_Date s) cursor + timedelta (Duration s)) t)
      as [IH1 IH2].
    pose proof (timedelta_nonneg _ Hs) as Hp.
    destruct (Z.leb_spec t (Start_Date s)) as [Hle|Hgt].
    + split; [lia|]. intros _. lia.
    + split; [lia|]. intros Hex.
      inversion Hex as [? ? Hhead|? ? Htail]; subst; [lia|].
      specialize (IH2 Htail). lia.
Qed.

Lemma work_from_perm (t : Z) (l l' : list Segment) :
  Permutation l l' -> work_from t l = work_from t l'.
Proof.
  induction 1 as [|x l l' _ IH|x y l|l l' l'' _ IH1 _ IH2]; cbn [work_from];
    lia.
Qed.

Lemma total_duration_perm (l l' : list Segment) :
  Permutation l l' -> total_duration l = total_duration l'.
Proof.
  unfold total_duration.
  induction 1 as [|x l l' _ IH|x y l|l l' l'' _ IH1 _ IH2];
    cbn [map fold_right]; lia.
Qed.

Lemma work_from_all (t : Z) (l : list Segment) :
  Forall (fun s => t <= Start_Date s) l ->
  work_from t l = timedelta (total_duration l).
Proof.
  unfold total_duration.
  induction 1 as [|s rest Hs _ IH]; cbn [work_from map fold_right].
  - reflexivity.
  - apply Z.leb_le in Hs. rewrite Hs, IH, timedelta_add. reflexivity.
Qed.

Lemma work_from_nonneg (t : Z) (l : list Segment) :
  Forall (fun s => 0 <= Duration s) l -> 0 <= work_from t l.
Proof.
  induction 1 as [|s rest Hs _ IH]; cbn [work_from]; [lia|].
  pose proof (timedelta_nonneg _ Hs). destruct (t <=? Start_Date s); lia.
Qed.

(** In order of planned start the crew is free as early as the two lower
    bounds allow. *)
Lemma finish_sorted_upper (ordered : list Segment) :
  StronglySorted (fun a b => Start_Date a <= Start_Date b) ordered ->
  Forall (fun s => 0 <= Duration s) ordered ->
  forall cursor bound,
    cursor + timedelta (total_duration ordered) <= bound ->
    Forall (fun s => Start_Date s + work_from (Start_Date s) ordered <= bound)
           ordered ->
    finish cursor ordered <= bound.
Proof.
  induction 1 as [|s rest Hsorted IH Hs]; intros Hdur cursor bound Hall Heach;
    cbn [finish].
  - unfold total_duration, timedelta in Hall. cbn in Hall. lia.
  - inversion Hdur as [|? ? Hp Hrest]; subst.
    inversion Heach as [|? ? Hhead Htail]; subst.
    pose proof (timedelta_nonneg _ Hp) as Hp'.
    assert (Hwork : work_from (Start_Date s) (s :: rest)
                    = timedelta (total_duration (s :: rest))).
    { apply work_from_all. constructor; [lia|exact Hs]. }
    assert (Htot : timedelta (total_duration (s :: rest))
                   = timedelta (Duration s) + timedelta (total_duration rest)).
    { unfold total_duration. cbn [map fold_right]. apply timedelta_add. }
    apply IH; [exact Hrest| |].
    + rewrite Hwork, Htot in Hhead. rewrite Htot in Hall. lia.
    + rewrite Forall_forall in Htail |- *. intros x Hx.
      specialize (Htail x Hx). cbn [work_from] in Htail.
      destruct (Start_Date x <=? Start_Date s); lia.
Qed.

(** Taking the segments in order of planned start frees the crew no later
    than taking them in any other order. *)
Lemma finish_start_order_least (ordered other : list Segment) :
  StronglySorted (fun a b => Start_Date a <= Start_Date b) ordered ->
  Forall (fun s => 0 <= Duration s) ordered ->
  Permutation ordered other ->
  forall cursor, finish cursor ordered <= finish cursor other.
Proof.
  intros Hsorted Hdur Hperm cursor.
  assert (Hdur' : Forall (fun s => 0 <= Duration s) other)
    by (eapply Permutation_Forall; eassumption).
  apply finish_sorted_upper; [exact Hsorted|exact Hdur| |].
  - rewrite (total_duration_perm _ _ Hperm). now apply finish_total.
  - apply Forall_forall. intros s Hs.
    rewrite (work_from_perm _ _ _ Hperm).
    apply (finish_lower_bound other Hdur' cursor (Start_Date s)).
    apply Exists_exists. exists s. split; [|lia].
    eapply Permutation_in; eassumption.
Qed.

Lemma finish_ge_cursor (ordered : list Segment) (cursor : Z) :
  Forall (fun s => 0 <= Duration s) ordered -> cursor <= finish cursor ordered.
Proof.
  intros Hdur.
  pose proof (proj1 (finish_lower_bound ordered Hdur cursor cursor)).
  pose proof (work_from_nonneg cursor ordered Hdur). lia.
Qed.

(** The last end date of a packing is the date the crew is free, and no row
    ends later. *)
Lemma pack_ends_at_finish (ordered : list Segment) :
  Forall (fun s => 0 <= Duration s) ordered ->
  ordered <> [] ->
  forall cursor,
    is_maximum (finish cursor ordered) (map Actual_End (pack cursor ordered)).
Proof.
  induction 1 as [|s rest Hs Hrest IH]; intros Hne cursor; [contradiction|].
  cbn [pack finish map Actual_End].
  set (e := Z.max (Start_Date s) cursor + timedelta (Duration s)).
  destruct rest as [|s2 rest].
  - cbn [pack finish map]. split; [now left|]. constructor; [lia|constructor].
  - destruct (IH ltac:(discriminate) e) as [Hin Hall].
    split; [now right|].
    constructor; [|exact Hall].
    apply finish_ge_cursor. exact Hrest.
Qed.

Lemma fold_max_spec (rest : list Z) :
  forall x,
    let m := fold_left Z.max rest x in
    (m = x \/ In m rest) /\ x <= m /\ Forall (fun y => y <= m) rest.
Proof.
  induction rest as [|y rest IH]; intros x; cbn [fold_left].
  - repeat split; [now left|lia|constructor].
  - destruct (IH (Z.max x y)) as [Hin [Hle Hall]].
    split; [|split].
    + destruct Hin as [Heq|Hin]; [|right; now right].
      destruct (Z.max_spec x y) as [[_ Hm]|[_ Hm]].
      * right. left. now rewrite Heq.
      * left. now rewrite Heq.
    + lia.
    + constructor; [lia|exact Hall].
Qed.

Lemma Series_max_of_maximum (m : Z) (col : list Z) :
  is_maximum m col -> Series_max col = Some m.
Proof.
  intros [Hin Hall]. destruct col as [|x rest]; [contradiction|].
  cbn [Series_max]. f_equal.
  destruct (fold_max_spec rest x) as [Hmem [Hle Hrest]].
  rewrite Forall_forall in Hall, Hrest.
  assert (Hm : fold_left Z.max rest x <= m).
  { destruct Hmem as [->|Hmem]; apply Hall; [now left|now right]. }
  destruct Hin as [<-|Hin]; [lia|]. specialize (Hrest m Hin). lia.
Qed.

Lemma Series_min_of_minimum (m : Z) (col : list Z) :
  is_minimum m col -> Series_min col = Some m.
Proof.
  intros Hmin.
  destruct (Series_min_is_minimum col) as [m' [Heq Hmin']].
  - destruct Hmin as [Hin _]. intros ->. contradiction.
  - rewrite Heq. f_equal. eapply is_minimum_unique; eassumption.
Qed.

Lemma is_maximum_perm (x : Z) (col col' : list Z) :
  Permutation col col' -> is_maximum x col -> is_maximum x col'.
Proof.
  intros Hperm [Hin Hall]. split.
  - eapply Permutation_in; eassumption.
  - eapply Permutation_Forall; eassumption.
Qed.

Section FinishingDates.

Context {sorter : Sorter} {arith : Float64}.

Lemma aggregated_ends (df : list Scheduled) :
  Permutation (map Actual_End df)
              (map (fun r => Actual_End (sched r)) (aggregated df)).
Proof.
  destruct (aggregated_columns df) as [Hsched _].
  rewrite <- (map_map sched Actual_End), Hsched.
  apply Permutation_map, sort_values_perm.
Qed.

Lemma aggregated_starts (df : list Scheduled) :
  Permutation (map Actual_Start df)
              (map (fun r => Actual_Start (sched r)) (aggregated df)).
Proof.
  destruct (aggregated_columns df) as [Hsched _].
  rewrite <- (map_map sched Actual_Start), Hsched.
  apply Permutation_map, sort_values_perm.
Qed.

(** The latest end date of a returned frame is the date the crew is free
    after the ordered rows. *)
Lemma frame_last_end (ordered : list Segment) (cursor : Z) :
  Forall (fun s => 0 <= Duration s) ordered ->
  ordered <> [] ->
  Series_max (map (fun r => Actual_End (sched r)) (aggregated (pack cursor ordered)))
  = Some (finish cursor ordered).
Proof.
  intros Hdur Hne. apply Series_max_of_maximum.
  eapply is_maximum_perm; [apply aggregated_ends|].
  now apply pack_ends_at_finish.
Qed.

(** X4: with durations that are not negative, sequencing by start date never
    finishes later than sequencing by lowest cost: the latest end date of
    the first frame is at most that of the second. *)
Theorem start_date_order_finishes_first (self : FiberSequencer) :
  data self <> [] ->
  Forall (fun s => 0 <= Duration s) (data self) ->
  exists by_date by_cost end_by_date end_by_cost,
    sequence_by_start_date self = Return by_date
    /\ sequence_by_lowest_cost self = Return by_cost
    /\ Series_max (map (fun r => Actual_End (sched r)) (rows by_date))
       = Some end_by_date
    /\ Series_max (map (fun r => Actual_End (sched r)) (rows by_cost))
       = Some end_by_cost
    /\ end_by_date <= end_by_cost.
Proof.
  intros Hne Hdur.
  destruct (sequence_frame self ByStartDate Hne) as [c1 [cols1 [Hmin1 [Hret1 _]]]].
  destruct (sequence_frame self ByLowestCost Hne) as [c2 [cols2 [Hmin2 [Hret2 _]]]].
  assert (Hc : c2 = c1) by (eapply is_minimum_unique; eassumption). subst c2.
  pose proof (ordered_by_perm ByStartDate (data self)) as Hp1.
  pose proof (ordered_by_perm ByLowestCost (data self)) as Hp2.
  assert (Hd1 : Forall (fun s => 0 <= Duration s) (ordered_by ByStartDate (data self)))
    by (eapply Permutation_Forall; eassumption).
  assert (Hd2 : Forall (fun s => 0 <= Duration s) (ordered_by ByLowestCost (data self)))
    by (eapply Permutation_Forall; eassumption).
  eexists _, _, (finish c1 (ordered_by ByStartDate (data self))),
          (finish c1 (ordered_by ByLowestCost (data self))).
  split; [exact Hret1|]. split; [exact Hret2|]. cbn [rows].
  split; [apply frame_last_end; [exact Hd1|now apply ordered_by_not_nil]|].
  split; [apply frame_last_end; [exact Hd2|now apply ordered_by_not_nil]|].
  apply finish_start_order_least.
  - apply sort_values_date_sorted.
  - exact Hd1.
  - eapply perm_trans; [apply Permutation_sym, Hp1|exact Hp2].
Qed.

End FinishingDates.

Lemma start_date_order_finishes_first_witness :
  exists by_date by_cost end_by_date end_by_cost,
    sequence_by_start_date (init sample) = Return by_date
    /\ sequence_by_lowest_cost (init sample) = Return by_cost
    /\ Series_max (map (fun r => Actual_End (sched r)) (rows by_date))
       = Some end_by_date
    /\ Series_max (map (fun r => Actual_End (sched r)) (rows by_cost))
       = Some end_by_cost
    /\ end_by_date <= end_by_cost.
Proof.
  apply (start_date_order_finishes_first (init sample)).
  - discriminate.
  - repeat constructor; discriminate.
Defined.

(** ** Total days *)

Lemma pack_starts_ge (ordered : list Segment) :
  Forall (fun s => 0 <= Duration s) ordered ->
  forall cursor, Forall (fun r => cursor <= Actual_Start r) (pack cursor ordered).
Proof.
  induction 1 as [|s rest Hs _ IH]; intros cursor; cbn [pack]; constructor.
  - cbn. lia.
  - pose proof (timedelta_nonneg _ Hs).
    eapply Forall_impl; [|apply IH]. cbn. intros r Hr. lia.
Qed.

(** The first packed row starts first, the crew is free when the last one
    ends, and between the two lies at least the work of all the rows. *)
Lemma pack_span (ordered : list Segment) (cursor : Z) :
  Forall (fun s => 0 <= Duration s) ordered ->
  ordered <> [] ->
  exists first_start,
    is_minimum first_start (map Actual_Start (pack cursor ordered))
    /\ first_start + timedelta (total_duration ordered) <= finish cursor ordered.
Proof.
  intros Hdur Hne. destruct ordered as [|s rest]; [contradiction|].
  inversion Hdur as [|? ? Hs Hrest]; subst.
  exists (Z.max (Start_Date s) cursor). cbn [pack map Actual_Start finish]. split.
  - split; [now left|]. constructor; [lia|].
    pose proof (timedelta_nonneg _ Hs).
    apply Forall_map.
    eapply Forall_impl; [|apply (pack_starts_ge rest Hrest)]. cbn. intros r Hr. lia.
  - pose proof (finish_total rest Hrest
                  (Z.max (Start_Date s) cursor + timedelta (Duration s))) as Hfin.
    unfold total_duration in *. cbn [map fold_right]. rewrite timedelta_add. lia.
Qed.

Section TotalDays.

Context {sorter : Sorter} {arith : Float64}.

(** X5: the total days reported for a returned frame are never fewer than the
    durations of the working set add up to, when no duration is negative. *)
Theorem total_days_at_least_durations (self : FiberSequencer) (rule : order_rule) :
  data self <> [] ->
  Forall (fun s => 0 <= Duration s) (data self) ->
  exists frame days,
    sequence rule self = Return frame
    /\ (forall other,
          total_days (fst (get_pros_cons_analysis frame other)) = Some days
          /\ total_days (snd (get_pros_cons_analysis other frame)) = Some days)
    /\ total_duration (data self) <= days.
Proof.
  intros Hne Hdur.
  destruct (sequence_frame self rule Hne) as [cursor [cols [_ [Hret _]]]].
  pose proof (ordered_by_perm rule (data self)) as Hperm.
  pose proof (ordered_by_not_nil rule _ Hne) as Hord.
  assert (Hdur' : Forall (fun s => 0 <= Duration s) (ordered_by rule (data self)))
    by (eapply Permutation_Forall; eassumption).
  destruct (pack_span _ cursor Hdur' Hord) as [first_start [Hmin Hspan]].
  exists (mkFrame (aggregated (pack cursor (ordered_by rule (data self)))) cols),
         ((finish cursor (ordered_by rule (data self)) - first_start) / ns_per_day).
  split; [exact Hret|].
  assert (Hdays : total_days
                    (method_metrics
                       (aggregated (pack cursor (ordered_by rule (data self)))))
                  = Some ((finish cursor (ordered_by rule (data self)) - first_start)
                          / ns_per_day)).
  { cbn [method_metrics total_days].
    rewrite (frame_last_end _ cursor Hdur' Hord).
    rewrite (Series_min_of_minimum first_start); [reflexivity|].
    eapply is_minimum_perm; [apply aggregated_starts|exact Hmin]. }
  split.
  - intros other. split; exact Hdays.
  - rewrite (total_duration_perm _ _ Hperm).
    apply Z.div_le_lower_bound; [reflexivity|].
    unfold timedelta in Hspan. lia.
Qed.

End TotalDays.

Lemma total_days_at_least_durations_witness :
  exists frame days,
    sequence ByLowestCost (init sample) = Return frame
    /\ (forall other,
          total_days (fst (get_pros_cons_analysis frame other)) = Some days
          /\ total_days (snd (get_pros_cons_analysis other frame)) = Some days)
    /\ total_duration (data (init sample)) <= days.
Proof.
  apply (total_days_at_least_durations (init sample) ByLowestCost).
  - discriminate.
  - repeat constructor; discriminate.
Defined.

(** ** The order of the milestones *)

Lemma StronglySorted_map {A B : Type} (f : A -> B) (R : B -> B -> Prop)
    (l : list A) :
  StronglySorted R (map f l) <-> StronglySorted (fun a b => R (f a) (f b)) l.
Proof.
  induction l as [|x rest IH]; cbn [map].
  - split; constructor.
  - split; intros H; inversion H as [|? ? Hrest Hx]; subst; constructor.
    + now apply IH.
    + exact (proj1 (Forall_map f (R (f x)) rest) Hx).
    + now apply IH.
    + exact (proj2 (Forall_map f (R (f x)) rest) Hx).
Qed.

(** In a list sorted by [R], the first element with a weaker property comes
    no later than the first with a stronger one. *)
Lemma find_weaker_earlier {A : Type} (R : A -> A -> Prop) (p1 p2 : A -> bool)
    (l : list A) (r2 : A) :
  StronglySorted R l ->
  (forall x, R x x) ->
  (forall x, p2 x = true -> p1 x = true) ->
  find p2 l = Some r2 ->
  exists r1, find p1 l = Some r1 /\ R r1 r2.
Proof.
  intros Hsorted Hrefl Himp.
  induction Hsorted as [|x rest Hrest IH Hx]; cbn [find]; [discriminate|].
  destruct (p1 x) eqn:E1.
  - intros Hfind. exists x. split; [reflexivity|].
    destruct (p2 x).
    + injection Hfind as <-. apply Hrefl.
    + apply find_some in Hfind. destruct Hfind as [Hin _].
      rewrite Forall_forall in Hx. now apply Hx.
  - destruct (p2 x) eqn:E2.
    + rewrite (Himp x E2) in E1. discriminate E1.
    + exact IH.
Qed.

Lemma pack_ends_sorted (ordered : list Segment) :
  Forall (fun s => 0 <= Duration s) ordered ->
  forall cursor,
    Forall (fun r => cursor <= Actual_End r) (pack cursor ordered)
    /\ StronglySorted (fun a b => Actual_End a <= Actual_End b) (pack cursor ordered).
Proof.
  induction 1 as [|s rest Hs _ IH]; intros cursor; cbn [pack].
  - split; constructor.
  - destruct (IH (Z.max (Start_Date s) cursor + timedelta (Duration s)))
      as [Hlow Hsorted].
    pose proof (timedelta_nonneg _ Hs).
    split.
    + constructor; [cbn; lia|].
      eapply Forall_impl; [|exact Hlow]. cbn. intros r Hr. lia.
    + constructor; [exact Hsorted|].
      eapply Forall_impl; [|exact Hlow]. cbn. intros r Hr. lia.
Qed.

Lemma pack_rows_miles (ordered : list Segment) (cursor : Z) :
  map row_Miles (pack cursor ordered) = map Miles ordered.
Proof.
  unfold row_Miles. rewrite <- (map_map seg Miles). now rewrite pack_segments.
Qed.

Lemma pack_rows_cost (ordered : list Segment) (cursor : Z) :
  map row_Cost (pack cursor ordered) = map Segment_Cost ordered.
Proof.
  unfold row_Cost. rewrite <- (map_map seg Segment_Cost). now rewrite pack_segments.
Qed.

Section MilestoneOrder.

Context {sorter : Sorter} {arith : Float64}.

(** With positive durations the aggregator's sort by actual start leaves
    the packed rows in place. *)
Lemma aggregated_keeps_order (ordered : list Segment) (cursor : Z) :
  Forall (fun s => 0 < Duration s) ordered ->
  map sched (aggregated (pack cursor ordered)) = pack cursor ordered
  /\ map Cumulative_Miles (aggregated (pack cursor ordered))
     = cumsum (map Miles ordered)
  /\ map Cumulative_Cost (aggregated (pack cursor ordered))
     = cumsum (map Segment_Cost ordered).
Proof.
  intros Hdur.
  destruct (aggregated_columns (pack cursor ordered)) as [Hsched [Hmiles Hcost]].
  assert (Heq : pack cursor ordered
                = sort_values Z.leb Actual_Start (pack cursor ordered)).
  { apply (sorted_permutation_unique Actual_Start).
    - now apply pack_starts_increase.
    - apply sort_values_perm.
    - apply sort_values_date_sorted. }
  rewrite Hsched, Hmiles, Hcost, <- Heq, pack_rows_miles, pack_rows_cost.
  now repeat split.
Qed.

End MilestoneOrder.

Lemma Qmult_le_compat_l_nonneg (z a b : Q) :
  (0 <= z)%Q -> (a <= b)%Q -> (z * a <= z * b)%Q.
Proof.
  intros Hz Hab. rewrite !(Qmult_comm z). now apply Qmult_le_compat_r.
Qed.

Lemma pack_not_nil (ordered : list Segment) (cursor : Z) :
  ordered <> [] -> pack cursor ordered <> [].
Proof.
  destruct ordered; [contradiction|discriminate].
Qed.

Section MilestoneDays.

Context {sorter : Sorter} {arith : Float64}.

(** The milestone columns of a non-empty frame are read from the row that
    [milestone_row] picks. *)
Lemma frame_milestone (result : list CumRow) (total_miles milestone : Q)
    (cols : MilestoneCols) :
  result <> [] ->
  milestone_columns result total_miles milestone = Return cols ->
  exists row,
    milestone_row (fmul total_miles milestone) result = Some row
    /\ cols = mkMilestoneCols (trunc (Fin (milestone * 100)))
                (Some (Actual_End (sched row))) (Some (Cumulative_Cost row)).
Proof.
  intros Hne Hcols. rewrite milestone_columns_row in Hcols.
  destruct (milestone_row (fmul total_miles milestone) result) as [row|];
    [|discriminate Hcols].
  exists row. split; [reflexivity|]. now injection Hcols as <-.
Qed.

(** A threshold that some row reaches has a first row reaching it, and that
    row is the one the milestone is read from. *)
Lemma milestone_row_reached (threshold : Q) (result : list CumRow) :
  Exists (fun r => (threshold <= Cumulative_Miles r)%Q) result ->
  exists row,
    first_reaching threshold result = Some row
    /\ milestone_row threshold result = Some row.
Proof.
  intros Hex. unfold milestone_row.
  destruct (first_reaching threshold result) as [row|] eqn:Efirst.
  - now exists row.
  - exfalso. apply first_reaching_none in Efirst.
    apply Exists_exists in Hex. destruct Hex as [r [Hin Hr]].
    rewrite Forall_forall in Efirst. exact (Efirst r Hin Hr).
Qed.

(** The thresholds rise with the milestone when the total is not negative. *)
Lemma threshold_monotone (total a b : Q) :
  (0 <= total)%Q -> (a <= b)%Q -> (fmul total a <= fmul total b)%Q.
Proof.
  intros Htotal Hab. apply fl_monotone. now apply Qmult_le_compat_l_nonneg.
Qed.

(** In a frame sorted by [R], a milestone whose threshold is reached is read
    from a row that comes no earlier than the row of any lower milestone. *)
Lemma milestone_rows_ordered (R : CumRow -> CumRow -> Prop)
    (result : list CumRow) (total a b : Q) (ra rb : CumRow) :
  StronglySorted R result ->
  (forall x, R x x) ->
  (0 <= total)%Q -> (a <= b)%Q ->
  Exists (fun r => (fmul total b <= Cumulative_Miles r)%Q) result ->
  milestone_row (fmul total a) result = Some ra ->
  milestone_row (fmul total b) result = Some rb ->
  R ra rb.
Proof.
  intros Hsorted Hrefl Htotal Hab Hreached Ha Hb.
  destruct (milestone_row_reached _ _ Hreached) as [row [Hfirst Hrow]].
  rewrite Hrow in Hb. injection Hb as <-.
  unfold first_reaching in Hfirst.
  destruct (find_weaker_earlier R
              (fun r => Qle_bool (fmul total a) (Cumulative_Miles r))
              (fun r => Qle_bool (fmul total b) (Cumulative_Miles r))
              result row Hsorted Hrefl) as [x [Fx Hx]]; [|exact Hfirst|].
  - intros x Hx. apply Qle_bool_iff in Hx. apply Qle_bool_iff.
    eapply Qle_trans; [|exact Hx]. now apply threshold_monotone.
  - unfold milestone_row, first_reaching in Ha. rewrite Fx in Ha.
    now injection Ha as <-.
Qed.

(** X6: with positive durations and distances that are not negative, the
    milestones of a returned frame come in order as far as their thresholds
    are reached.  When some row's running distance reaches the 75% threshold,
    the 50% day is no later than the 75% day; when some row reaches the 100%
    threshold, the 75% day is no later than the 100% day; and when the total
    costs are floats that are not negative, the milestone costs are in the
    same order.  A threshold is the float product of the frame's
    [Series.sum()] of distance with the milestone. *)
Theorem milestone_days_ordered (self : FiberSequencer) (rule : order_rule) :
  data self <> [] ->
  Forall (fun s => 0 < Duration s /\ (0 <= Miles s)%Q) (data self) ->
  exists frame d50 d75 d100 c50 c75 c100,
    sequence rule self = Return frame
    /\ milestone_cols frame
       = [mkMilestoneCols 50 (Some d50) (Some c50);
          mkMilestoneCols 75 (Some d75) (Some c75);
          mkMilestoneCols 100 (Some d100) (Some c100)]
    /\ (forall reached_75 :
          Exists (fun r =>
                    (fmul (np_sum (map (fun r => row_Miles (sched r)) (rows frame)))
                          (3 # 4)
                     <= Cumulative_Miles r)%Q) (rows frame),
          d50 <= d75
          /\ (Forall (fun s => is_float (Segment_Cost s) /\ (0 <= Segment_Cost s)%Q)
                     (data self) ->
              (c50 <= c75)%Q))
    /\ (forall reached_100 :
          Exists (fun r =>
                    (fmul (np_sum (map (fun r => row_Miles (sched r)) (rows frame)))
                          1
                     <= Cumulative_Miles r)%Q) (rows frame),
          d75 <= d100
          /\ (Forall (fun s => is_float (Segment_Cost s) /\ (0 <= Segment_Cost s)%Q)
                     (data self) ->
              (c75 <= c100)%Q)).
Proof.
  intros Hne Hdata.
  destruct (sequence_frame self rule Hne) as [cursor [cols [_ [Hret Hcols]]]].
  pose proof (ordered_by_perm rule (data self)) as Hperm.
  pose proof (ordered_by_not_nil rule _ Hne) as Hord.
  set (ordered := ordered_by rule (data self)) in *.
  set (result := aggregated (pack cursor ordered)) in *.
  set (total := np_sum (map (fun r => row_Miles (sched r)) result)) in *.
  assert (Hall : Forall (fun s => 0 < Duration s /\ (0 <= Miles s)%Q) ordered)
    by (eapply Permutation_Forall; eassumption).
  assert (Hdur : Forall (fun s => 0 < Duration s) ordered)
    by (eapply Forall_impl; [|exact Hall]; intros s [H _]; exact H).
  assert (Hdur0 : Forall (fun s => 0 <= Duration s) ordered)
    by (eapply Forall_impl; [|exact Hall]; intros s [H _]; lia).
  assert (Hmiles : Forall (fun s => (0 <= Miles s)%Q) ordered)
    by (eapply Forall_impl; [|exact Hall]; intros s [_ H]; exact H).
  destruct (aggregated_keeps_order ordered cursor Hdur) as [Hsched [Hcm Hcc]].
  fold result in Hsched, Hcm, Hcc.
  assert (Hresult : result <> []).
  { apply aggregated_not_nil. now apply pack_not_nil. }
  assert (Htotal : (0 <= total)%Q).
  { unfold total. rewrite <- (map_map sched row_Miles), Hsched, pack_rows_miles.
    apply np_sum_nonneg. now apply Forall_map. }
  assert (Hdays : StronglySorted
                    (fun a b => Actual_End (sched a) <= Actual_End (sched b)) result).
  { apply (StronglySorted_map sched (fun a b => Actual_End a <= Actual_End b)).
    rewrite Hsched. now apply pack_ends_sorted. }
  assert (Hcosts :
    Forall (fun s => is_float (Segment_Cost s) /\ (0 <= Segment_Cost s)%Q)
           (data self) ->
    StronglySorted (fun a b => (Cumulative_Cost a <= Cumulative_Cost b)%Q) result).
  { intros Hcost. apply (StronglySorted_map Cumulative_Cost Qle).
    rewrite Hcc. apply cumsum_non_decreasing.
    apply (proj2 (Forall_map Segment_Cost (fun x => is_float x /\ (0 <= x)%Q) _)).
    eapply Permutation_Forall; eassumption. }
  assert (Hdays_refl : forall x : CumRow,
            Actual_End (sched x) <= Actual_End (sched x)) by (intros; lia).
  assert (Hcosts_refl : forall x : CumRow,
            (Cumulative_Cost x <= Cumulative_Cost x)%Q) by (intros; apply Qle_refl).
  unfold milestones in Hcols.
  inversion Hcols as [|m50 k50 ms1 cs1 H50 Hrest1]; subst.
  inversion Hrest1 as [|m75 k75 ms2 cs2 H75 Hrest2]; subst.
  inversion Hrest2 as [|m100 k100 ms3 cs3 H100 Hrest3]; subst.
  inversion Hrest3; subst.
  destruct (frame_milestone result total (1 # 2) k50 Hresult H50) as [r50 [F50 ->]].
  destruct (frame_milestone result total (3 # 4) k75 Hresult H75) as [r75 [F75 ->]].
  destruct (frame_milestone result total 1 k100 Hresult H100) as [r100 [F100 ->]].
  eexists _, (Actual_End (sched r50)), (Actual_End (sched r75)),
          (Actual_End (sched r100)),
          (Cumulative_Cost r50), (Cumulative_Cost r75), (Cumulative_Cost r100).
  split; [exact Hret|]. split; [reflexivity|]. cbn [rows]. fold result total.
  split; intros Hreached; split.
  - apply (milestone_rows_ordered _ result total (1 # 2) (3 # 4) r50 r75 Hdays);
      try assumption. discriminate.
  - intros Hcost.
    apply (milestone_rows_ordered _ result total (1 # 2) (3 # 4) r50 r75
             (Hcosts Hcost)); try assumption. discriminate.
  - apply (milestone_rows_ordered _ result total (3 # 4) 1 r75 r100 Hdays);
      try assumption. discriminate.
  - intros Hcost.
    apply (milestone_rows_ordered _ result total (3 # 4) 1 r75 r100
             (Hcosts Hcost)); try assumption. discriminate.
Qed.

End MilestoneDays.

Lemma milestone_days_ordered_witness :
  exists frame d50 d75 d100 c50 c75 c100,
    sequence ByLowestCost (init sample) = Return frame
    /\ milestone_cols frame
       = [mkMilestoneCols 50 (Some d50) (Some c50);
          mkMilestoneCols 75 (Some d75) (Some c75);
          mkMilestoneCols 100 (Some d100) (Some c100)]
    /\ d50 <= d75 <= d100
    /\ (c50 <= c75)%Q /\ (c75 <= c100)%Q.
Proof.
  destruct (milestone_days_ordered (init sample) ByLowestCost)
    as [frame [d50 [d75 [d100 [c50 [c75 [c100 [Hret [Hcols [H75 H100]]]]]]]]]].
  - discriminate.
  - repeat constructor; discriminate.
  - assert (Hcost : Forall (fun s => is_float (Segment_Cost s)
                                     /\ (0 <= Segment_Cost s)%Q)
                           (data (init sample))).
    { repeat constructor; discriminate. }
    assert (Hframe : frame = frame_of (sequence ByLowestCost (init sample)))
      by now rewrite Hret.
    vm_compute in Hframe. subst frame.
    destruct H75 as [Hd1 Hc1].
    { apply Exists_cons_tl, Exists_cons_tl, Exists_cons_hd. discriminate. }
    destruct H100 as [Hd2 Hc2].
    { apply Exists_cons_tl, Exists_cons_tl, Exists_cons_hd. discriminate. }
    exists (frame_of (sequence ByLowestCost (init sample))),
           d50, d75, d100, c50, c75, c100.
    split; [reflexivity|].
    split; [exact Hcols|]. split; [lia|]. split; [now apply Hc1|now apply Hc2].
Defined.

(** ** Reading the milestone columns *)

(** The shape of a frame the sequencing methods return: at least one row,
    and the three pairs of milestone columns, all filled. *)
Definition has_milestones (frame : Frame) : Prop :=
  rows frame <> []
  /\ exists d50 c50 d75 c75 d100 c100,
       milestone_cols frame
       = [mkMilestoneCols 50 (Some d50) (Some c50);
          mkMilestoneCols 75 (Some d75) (Some c75);
          mkMilestoneCols 100 (Some d100) (Some c100)].

Lemma milestone_columns_filled {arith : Float64}
    (result : list CumRow) (total_miles milestone : Q) (cols : MilestoneCols) :
  milestone_columns result total_miles milestone = Return cols ->
  exists d c,
    cols = mkMilestoneCols (trunc (Fin (milestone * 100))) (Some d) (Some c).
Proof.
  rewrite milestone_columns_row.
  destruct (milestone_row (fmul total_miles milestone) result) as [row|];
    [|discriminate].
  intros H. injection H as <-. eauto.
Qed.

Lemma sequence_has_milestones {sorter : Sorter} {arith : Float64}
    (self : FiberSequencer)
    (rule : order_rule) (frame : Frame) :
  sequence rule self = Return frame -> has_milestones frame.
Proof.
  intros Hret.
  pose proof (sequence_returns_rows self rule frame Hret) as Hrows.
  destruct (sequence_frame self rule (sequence_return_inv _ _ _ Hret))
    as [cursor [cols [_ [Hframe Hcols]]]].
  rewrite Hret in Hframe. injection Hframe as Hframe.
  split; [exact Hrows|]. rewrite Hframe. cbn [milestone_cols].
  unfold milestones in Hcols.
  inversion Hcols as [|m50 k50 ms1 cs1 H50 Hrest1]; subst.
  inversion Hrest1 as [|m75 k75 ms2 cs2 H75 Hrest2]; subst.
  inversion Hrest2 as [|m100 k100 ms3 cs3 H100 Hrest3]; subst.
  inversion Hrest3; subst.
  destruct (milestone_columns_filled _ _ _ _ H50) as [d50 [c50 ->]].
  destruct (milestone_columns_filled _ _ _ _ H75) as [d75 [c75 ->]].
  destruct (milestone_columns_filled _ _ _ _ H100) as [d100 [c100 ->]].
  exists d50, c50, d75, c75, d100, c100. reflexivity.
Qed.

Lemma iloc0_milestone_found (frame : Frame) (milestone : Z) (c : MilestoneCols) :
  rows frame <> [] ->
  find (fun k => pct k =? milestone) (milestone_cols frame) = Some c ->
  iloc0_milestone frame milestone = Done c.
Proof.
  intros Hrows Hfind. unfold iloc0_milestone. rewrite Hfind.
  destruct (rows frame); [contradiction|reflexivity].
Qed.

(** What one entry of the comparison holds when both frames have the
    milestone filled. *)
Lemma compare_milestone_filled (a b : Frame) (milestone : Z)
    (x y : Z) (ca cb : Q) :
  iloc0_milestone a milestone = Done (mkMilestoneCols milestone (Some x) (Some ca)) ->
  iloc0_milestone b milestone = Done (mkMilestoneCols milestone (Some y) (Some cb)) ->
  compare_milestone a b milestone
  = Done (mkMilestoneDelta (Some x) (Some y) (Some ((y - x) / ns_per_day))
            (Some ca) (Some cb)
            (if negb (Qeq_bool ca 0) && negb (Qeq_bool cb 0)
             then Some (cb - ca)%Q else None)).
Proof.
  intros Ha Hb. unfold compare_milestone. rewrite Ha, Hb. reflexivity.
Qed.

(** The property of one entry of the comparison that the theorem below
    states for all three. *)
Definition entry_compares (a b : Frame) (entry : Z * MilestoneDelta) : Prop :=
  exists x y ca cb,
    iloc0_milestone a (fst entry)
    = Done (mkMilestoneCols (fst entry) (Some x) (Some ca))
    /\ iloc0_milestone b (fst entry)
       = Done (mkMilestoneCols (fst entry) (Some y) (Some cb))
    /\ start_date_day (snd entry) = Some x
    /\ lowest_cost_day (snd entry) = Some y
    /\ day_diff (snd entry) = Some ((y - x) / ns_per_day)
    /\ start_date_cost (snd entry) = Some ca
    /\ lowest_cost_cost (snd entry) = Some cb
    /\ (cost_diff (snd entry) = None <-> (ca == 0)%Q \/ (cb == 0)%Q)
    /\ (forall diff, cost_diff (snd entry) = Some diff -> diff = (cb - ca)%Q).

Lemma entry_compares_filled (a b : Frame) (milestone : Z) (x y : Z) (ca cb : Q)
    (entry : MilestoneDelta) :
  iloc0_milestone a milestone = Done (mkMilestoneCols milestone (Some x) (Some ca)) ->
  iloc0_milestone b milestone = Done (mkMilestoneCols milestone (Some y) (Some cb)) ->
  compare_milestone a b milestone = Done entry ->
  entry_compares a b (milestone, entry).
Proof.
  intros Ha Hb Hentry.
  rewrite (compare_milestone_filled a b milestone x y ca cb Ha Hb) in Hentry.
  injection Hentry as <-.
  exists x, y, ca, cb. cbn [fst snd start_date_day lowest_cost_day day_diff
                            start_date_cost lowest_cost_cost cost_diff].
  repeat (split; [first [exact Ha | exact Hb | reflexivity]|]).
  destruct (Qeq_bool ca 0) eqn:Ea, (Qeq_bool cb 0) eqn:Eb; cbn [negb andb].
  - split; [|discriminate]. split; [|reflexivity].
    intros _. left. now apply Qeq_bool_iff.
  - split; [|discriminate]. split; [|reflexivity].
    intros _. left. now apply Qeq_bool_iff.
  - split; [|discriminate]. split; [|reflexivity].
    intros _. right. now apply Qeq_bool_iff.
  - split.
    + split; [discriminate|].
      intros [H|H]; apply Qeq_bool_iff in H; congruence.
    + intros diff Hdiff. now injection Hdiff as <-.
Qed.

(** On two frames with filled milestones [get_milestone_comparison]
    returns its three entries. *)
Lemma get_milestone_comparison_returns (a b : Frame) :
  has_milestones a -> has_milestones b ->
  exists e50 e75 e100,
    get_milestone_comparison a b = Done [(50, e50); (75, e75); (100, e100)]
    /\ entry_compares a b (50, e50)
    /\ entry_compares a b (75, e75)
    /\ entry_compares a b (100, e100).
Proof.
  intros [Ha [x50 [p50 [x75 [p75 [x100 [p100 Hacols]]]]]]]
         [Hb [y50 [q50 [y75 [q75 [y100 [q100 Hbcols]]]]]]].
  assert (A50 : iloc0_milestone a 50 = Done (mkMilestoneCols 50 (Some x50) (Some p50)))
    by (apply iloc0_milestone_found; [exact Ha|now rewrite Hacols]).
  assert (A75 : iloc0_milestone a 75 = Done (mkMilestoneCols 75 (Some x75) (Some p75)))
    by (apply iloc0_milestone_found; [exact Ha|now rewrite Hacols]).
  assert (A100 : iloc0_milestone a 100
                 = Done (mkMilestoneCols 100 (Some x100) (Some p100)))
    by (apply iloc0_milestone_found; [exact Ha|now rewrite Hacols]).
  assert (B50 : iloc0_milestone b 50 = Done (mkMilestoneCols 50 (Some y50) (Some q50)))
    by (apply iloc0_milestone_found; [exact Hb|now rewrite Hbcols]).
  assert (B75 : iloc0_milestone b 75 = Done (mkMilestoneCols 75 (Some y75) (Some q75)))
    by (apply iloc0_milestone_found; [exact Hb|now rewrite Hbcols]).
  assert (B100 : iloc0_milestone b 100
                 = Done (mkMilestoneCols 100 (Some y100) (Some q100)))
    by (apply iloc0_milestone_found; [exact Hb|now rewrite Hbcols]).
  pose proof (compare_milestone_filled a b 50 _ _ _ _ A50 B50) as C50.
  pose proof (compare_milestone_filled a b 75 _ _ _ _ A75 B75) as C75.
  pose proof (compare_milestone_filled a b 100 _ _ _ _ A100 B100) as C100.
  eexists _, _, _. split.
  - unfold get_milestone_comparison. cbn [for_each_milestone].
    rewrite C50, C75, C100. reflexivity.
  - split; [|split].
    + eapply entry_compares_filled; eassumption.
    + eapply entry_compares_filled; eassumption.
    + eapply entry_compares_filled; eassumption.
Qed.

Section Comparison.

Context {sorter : Sorter} {arith : Float64}.


End Comparison.


(** ** The KPI cards *)

Lemma kpi_milestone_filled (a b : Frame) (milestone : Z) (x y : Z) (ca cb : Q) :
  iloc0_milestone a milestone = Done (mkMilestoneCols milestone (Some x) (Some ca)) ->
  iloc0_milestone b milestone = Done (mkMilestoneCols milestone (Some y) (Some cb)) ->
  kpi_milestone a b milestone
  = Done (mkKpiMilestone
            (days_between (Some x)
               (Series_min (map (fun r => Actual_Start (sched r)) (rows a))))
            (days_between (Some y)
               (Series_min (map (fun r => Actual_Start (sched r)) (rows b))))
            (Some ca) (Some cb)).
Proof.
  intros Ha Hb. unfold kpi_milestone. rewrite Ha, Hb. reflexivity.
Qed.

(** On two frames with filled milestones [create_kpi_cards] returns, with
    the entries for 50, 75 and 100. *)
Lemma create_kpi_cards_returns (a b : Frame) :
  has_milestones a -> has_milestones b ->
  exists entries,
    create_kpi_cards a b
    = Done (mkKpiCards
              (frame_total_days a) (frame_total_days b)
              (option_sub (frame_total_days b) (frame_total_days a))
              (frame_total_cost a) (frame_total_cost b)
              (frame_total_cost b - frame_total_cost a)%Q
              entries)
    /\ map fst entries = [50; 75; 100].
Proof.
  intros [Ha [x50 [p50 [x75 [p75 [x100 [p100 Hacols]]]]]]]
         [Hb [y50 [q50 [y75 [q75 [y100 [q100 Hbcols]]]]]]].
  assert (A50 : iloc0_milestone a 50 = Done (mkMilestoneCols 50 (Some x50) (Some p50)))
    by (apply iloc0_milestone_found; [exact Ha|now rewrite Hacols]).
  assert (A75 : iloc0_milestone a 75 = Done (mkMilestoneCols 75 (Some x75) (Some p75)))
    by (apply iloc0_milestone_found; [exact Ha|now rewrite Hacols]).
  assert (A100 : iloc0_milestone a 100
                 = Done (mkMilestoneCols 100 (Some x100) (Some p100)))
    by (apply iloc0_milestone_found; [exact Ha|now rewrite Hacols]).
  assert (B50 : iloc0_milestone b 50 = Done (mkMilestoneCols 50 (Some y50) (Some q50)))
    by (apply iloc0_milestone_found; [exact Hb|now rewrite Hbcols]).
  assert (B75 : iloc0_milestone b 75 = Done (mkMilestoneCols 75 (Some y75) (Some q75)))
    by (apply iloc0_milestone_found; [exact Hb|now rewrite Hbcols]).
  assert (B100 : iloc0_milestone b 100
                 = Done (mkMilestoneCols 100 (Some y100) (Some q100)))
    by (apply iloc0_milestone_found; [exact Hb|now rewrite Hbcols]).
  eexists. split.
  - unfold create_kpi_cards. cbn [for_each_milestone].
    rewrite (kpi_milestone_filled a b 50 _ _ _ _ A50 B50).
    rewrite (kpi_milestone_filled a b 75 _ _ _ _ A75 B75).
    rewrite (kpi_milestone_filled a b 100 _ _ _ _ A100 B100).
    reflexivity.
  - reflexivity.
Qed.

Lemma frame_total_days_some (frame : Frame) :
  rows frame <> [] -> exists days, frame_total_days frame = Some days.
Proof.
  intros Hrows. unfold frame_total_days.
  destruct (rows frame) as [|r rest]; [contradiction|].
  cbn [map Series_max Series_min days_between]. eauto.
Qed.

Section KpiCards.

Context {sorter : Sorter} {arith : Float64}.

Lemma frame_total_cost_of_working_set (self : FiberSequencer) (rule : order_rule)
    (frame : Frame) :
  sequence rule self = Return frame ->
  (frame_total_cost frame == Series_sum (map Segment_Cost (data self)))%Q.
Proof.
  intros Hret. unfold frame_total_cost, row_Cost.
  apply Series_sum_perm.
  rewrite <- (map_map (fun r => seg (sched r)) Segment_Cost).
  apply Permutation_map, Permutation_sym.
  exact (sequence_frame_segments self rule frame Hret).
Qed.


End KpiCards.


(** ** The adjuster and the sequencer together *)

Section Pipeline.

Context {sorter : Sorter} {arith : Float64}.

Lemma astype_int_return (col : list fval) (ints : list Z) :
  astype_int col = Return ints -> ints = map trunc col.
Proof.
  unfold astype_int. destruct (forallb isfinite col); [|discriminate].
  intros H. now injection H as <-.
Qed.

(** Whenever [apply_parameters] returns, the working set is the original
    with each row rewritten in place, names, costs and distances untouched,
    and then cut down by the ceiling. *)
Lemma apply_parameters_returned (self : FiberSequencer) (off : Z) (m : Q)
    (c : option Q) :
  snd (apply_parameters self off m c) = Return tt ->
  exists rewrite_row : Segment -> Segment,
    (forall s, Segment_Name (rewrite_row s) = Segment_Name s
               /\ Segment_Cost (rewrite_row s) = Segment_Cost s
               /\ Miles (rewrite_row s) = Miles s)
    /\ data (fst (apply_parameters self off m c))
       = cost_filter c (map rewrite_row (original_data self)).
Proof.
  unfold apply_parameters.
  set (shift := fun r => set_Start_Date r (Start_Date r + timedelta off)).
  assert (Hoff :
    (if negb (off =? 0)
     then set_data (set_data self (original_data self))
            (map shift (data (set_data self (original_data self))))
     else set_data self (original_data self))
    = set_data self (map shift (original_data self))).
  { destruct (Z.eqb_spec off 0) as [->|_]; cbn [negb]; [|reflexivity].
    unfold shift. now rewrite shift_zero. }
  rewrite Hoff. clear Hoff.
  destruct (Qeq_bool m 1); cbn [negb].
  - intros _. exists shift. split; [intros s; now repeat split|].
    destruct c; reflexivity.
  - cbn [set_data data original_data].
    set (scaled := map (fun r => set_EstRate r (fmul (EstRate r) m))
                       (map shift (original_data self))).
    destruct (astype_int (map np_ceil (map (fun r => fdiv (Miles r) (EstRate r))
                                           scaled))) as [ints|e] eqn:Eint.
    + intros _. apply astype_int_return in Eint. subst ints.
      rewrite !map_map, assign_Duration_map.
      exists (fun s =>
                set_Duration (set_EstRate (shift s) (fmul (EstRate (shift s)) m))
                  (trunc (np_ceil (fdiv (Miles (set_EstRate (shift s)
                                                  (fmul (EstRate (shift s)) m)))
                                        (EstRate (set_EstRate (shift s)
                                                    (fmul (EstRate (shift s)) m))))))).
      split; [intros s; now repeat split|].
      unfold scaled. rewrite !map_map.
      destruct c; reflexivity.
    + destruct c; discriminate.
Qed.

Lemma filter_names_rewritten (g : Segment -> Segment) (ceiling : Q)
    (l : list Segment) :
  (forall s, Segment_Name (g s) = Segment_Name s
             /\ Segment_Cost (g s) = Segment_Cost s
             /\ Miles (g s) = Miles s) ->
  map Segment_Name (filter (fun s => Qle_bool (Segment_Cost s) ceiling) l)
  = map Segment_Name
        (filter (fun s => Qle_bool (Segment_Cost s) ceiling) (map g l)).
Proof.
  intros Hg. induction l as [|s rest IH]; [reflexivity|].
  cbn [map filter]. destruct (Hg s) as [Hn [Hc _]]. rewrite Hc.
  destruct (Qle_bool (Segment_Cost s) ceiling); cbn [map];
    [rewrite Hn; f_equal|]; exact IH.
Qed.

(** X10: after [apply_parameters] returned with a cost ceiling, a sequencing
    method schedules exactly the segments of the original data whose total
    cost does not exceed the ceiling: no row of the frame costs more, and the
    names in the frame are the names of those segments. *)
Theorem ceiling_decides_what_is_scheduled (self : FiberSequencer) (off : Z)
    (m ceiling : Q) (rule : order_rule) (frame : Frame) :
  snd (apply_parameters self off m (Some ceiling)) = Return tt ->
  sequence rule (fst (apply_parameters self off m (Some ceiling))) = Return frame ->
  Forall (fun r => (row_Cost (sched r) <= ceiling)%Q) (rows frame)
  /\ Permutation
       (map Segment_Name
            (filter (fun s => Qle_bool (Segment_Cost s) ceiling) (original_data self)))
       (map (fun r => Segment_Name (seg (sched r))) (rows frame)).
Proof.
  intros Hret Hseq.
  destruct (apply_parameters_returned self off m (Some ceiling) Hret)
    as [g [Hg Hdata]].
  pose proof (sequence_frame_segments _ rule frame Hseq) as Hperm.
  rewrite Hdata in Hperm. cbn [cost_filter] in Hperm.
  split.
  - apply (proj1 (Forall_map (fun r => seg (sched r))
                             (fun s => (Segment_Cost s <= ceiling)%Q) (rows frame))).
    eapply Permutation_Forall; [exact Hperm|].
    apply Forall_forall. intros s Hs.
    apply filter_In in Hs. destruct Hs as [_ Hs]. now apply Qle_bool_iff.
  - rewrite <- (map_map (fun r => seg (sched r)) Segment_Name).
    eapply perm_trans; [|apply Permutation_map, Hperm].
    rewrite (filter_names_rewritten g ceiling (original_data self) Hg).
    apply Permutation_refl.
Qed.

End Pipeline.

Lemma ceiling_decides_what_is_scheduled_witness :
  Permutation
    (map Segment_Name
         (filter (fun s => Qle_bool (Segment_Cost s) 60000) (original_data (init sample))))
    (map (fun r => Segment_Name (seg (sched r)))
         (rows (frame_of (sequence ByStartDate
                            (fst (apply_parameters (init sample) 3 (6 # 5)
                                                   (Some 60000%Q))))))).
Proof.
  apply (ceiling_decides_what_is_scheduled (init sample) 3 (6 # 5) 60000
           ByStartDate
           (frame_of (sequence ByStartDate
                        (fst (apply_parameters (init sample) 3 (6 # 5)
                                               (Some 60000%Q)))))).
  - vm_compute. reflexivity.
  - vm_compute. reflexivity.
Defined.

(** ** The rate multiplier *)

Lemma Qdiv_le_denominator (a b c : Q) :
  (0 <= a)%Q -> (0 < b)%Q -> (b <= c)%Q -> (a / c <= a / b)%Q.
Proof.
  intros Ha Hb Hbc.
  assert (Hc : (0 < c)%Q) by (eapply Qlt_le_trans; eassumption).
  apply Qle_shift_div_r; [exact Hc|].
  assert (Hq : (0 <= a / b)%Q).
  { apply Qle_shift_div_l; [exact Hb|]. now rewrite Qmult_0_l. }
  assert (Hab : (a == a / b * b)%Q).
  { field. intros H. rewrite H in Hb. now apply Qlt_irrefl in Hb. }
  rewrite Hab at 1. now apply Qmult_le_compat_l_nonneg.
Qed.

Section RateMultiplier.

Context {arith : Float64}.

(** X11: a larger multiplier never lengthens a segment: of two multipliers other
    than 1, on segments with positive rate and a distance that is not
    negative, the larger one gives every segment a duration that is at most
    the one the smaller gives. *)
Theorem larger_multiplier_never_longer (self : FiberSequencer) (off : Z)
    (m1 m2 : Q) :
  (0 < m1)%Q -> (m1 <= m2)%Q ->
  Qeq_bool m1 1 = false -> Qeq_bool m2 1 = false ->
  Forall (fun s => (0 < EstRate s)%Q /\ (0 <= Miles s)%Q) (original_data self) ->
  Forall2 (fun slow fast =>
             Segment_Name fast = Segment_Name slow
             /\ Duration fast <= Duration slow)
          (data (fst (apply_parameters self off m1 None)))
          (data (fst (apply_parameters self off m2 None))).
Proof.
  intros Hm1 Hm12 Hne1 Hne2 Hpos.
  assert (Hm2 : (0 < m2)%Q) by (eapply Qlt_le_trans; eassumption).
  rewrite !apply_parameters_ok.
  - cbn [fst set_data data cost_filter].
    induction Hpos as [|s rest [Hr Hd] _ IH]; cbn [map]; constructor; [|exact IH].
    rewrite !adjust_segment_new_rate by assumption. cbn. split; [reflexivity|].
    apply Qceiling_resp_le, fl_monotone, Qdiv_le_denominator.
    + exact Hd.
    + apply fl_pos. now apply Qmult_lt_0_compat.
    + apply fl_monotone. now apply Qmult_le_compat_l_nonneg; [apply Qlt_le_weak|].
  - intros _. eapply Forall_impl; [|exact Hpos]. intros s [Hr _].
    apply Qpos_nonzero, fl_pos. now apply Qmult_lt_0_compat.
  - intros _. eapply Forall_impl; [|exact Hpos]. intros s [Hr _].
    apply Qpos_nonzero, fl_pos. now apply Qmult_lt_0_compat.
Qed.

End RateMultiplier.

Lemma larger_multiplier_never_longer_witness :
  Forall2 (fun slow fast =>
             Segment_Name fast = Segment_Name slow
             /\ Duration fast <= Duration slow)
          (data (fst (apply_parameters (init sample) 0 (1 # 2) None)))
          (data (fst (apply_parameters (init sample) 0 2 None))).
Proof.
  apply (larger_multiplier_never_longer (init sample) 0 (1 # 2) 2).
  - reflexivity.
  - discriminate.
  - reflexivity.
  - reflexivity.
  - repeat constructor; discriminate.
Defined.

(** ** The progress curves *)

Lemma Forall_filter_keep {A : Type} (P : A -> Prop) (p : A -> bool) (l : list A) :
  Forall P l -> Forall P (filter p l).
Proof.
  intros H. apply Forall_forall. intros x Hx.
  apply filter_In in Hx. rewrite Forall_forall in H. now apply H.
Qed.

Lemma date_range_ascending (min_date max_date : Z) :
  StronglySorted Z.lt (date_range min_date max_date).
Proof.
  unfold date_range. destruct (max_date <? min_date); [constructor|].
  generalize (Datatypes.S (Z.to_nat ((max_date - min_date) / ns_per_day))).
  intros n. generalize 0%nat.
  induction n as [|n IH]; intros k; cbn [seq map]; constructor.
  - apply IH.
  - apply Forall_map, Forall_forall. intros j Hj.
    apply in_seq in Hj. unfold timedelta, ns_per_day. lia.
Qed.

Lemma date_range_bounds (min_date max_date : Z) :
  min_date <= max_date ->
  hd_error (date_range min_date max_date) = Some min_date
  /\ Forall (fun d => min_date <= d <= max_date) (date_range min_date max_date)
  /\ length (date_range min_date max_date)
     = Datatypes.S (Z.to_nat ((max_date - min_date) / ns_per_day)).
Proof.
  intros Hle. unfold date_range.
  replace (max_date <? min_date) with false by (symmetry; apply Z.ltb_ge; lia).
  split; [|split].
  - cbn [seq map hd_error]. f_equal. unfold timedelta. lia.
  - apply Forall_map, Forall_forall. intros k Hk. apply in_seq in Hk.
    assert (Hq : 0 <= (max_date - min_date) / ns_per_day)
      by (apply Z.div_pos; [lia|reflexivity]).
    assert (Hk' : Z.of_nat k <= (max_date - min_date) / ns_per_day) by lia.
    assert (Hmul : ns_per_day * ((max_date - min_date) / ns_per_day)
                   <= max_date - min_date)
      by (apply Z.mul_div_le; reflexivity).
    unfold timedelta. unfold ns_per_day in *. nia.
  - now rewrite length_map, length_seq.
Qed.

Section ProgressCurves.

Context {arith : Float64}.

(** With a summed distance that is not zero, the percentage the loop computes
    is the finite number [percent_on]. *)
Lemma progress_on_percent (data : list CumRow) (date : Z) :
  ~ (np_sum (map (fun r => row_Miles (sched r)) data) == 0)%Q ->
  progress_on data date = Fin (percent_on data date).
Proof.
  intros Htotal. unfold progress_on, percent_on.
  destruct (Nat.ltb 0 (length (filter (fun r => Actual_End (sched r) <=? date) data)));
    [|reflexivity].
  now rewrite fdiv_finite.
Qed.

(** No negative distance, no negative percentage. *)
Lemma percent_on_nonneg (data : list CumRow) (date : Z) :
  Forall (fun r => (0 <= row_Miles (sched r))%Q) data ->
  (0 <= percent_on data date)%Q.
Proof.
  intros Hpos. unfold percent_on.
  destruct (Nat.ltb 0 (length _)); [|apply Qle_refl].
  set (completed := filter (fun r => Actual_End (sched r) <=? date) data).
  assert (Hdone : (0 <= np_sum (map (fun r => row_Miles (sched r)) completed))%Q).
  { apply np_sum_nonneg, Forall_map. now apply Forall_filter_keep. }
  assert (Htotal : (0 <= np_sum (map (fun r => row_Miles (sched r)) data))%Q).
  { apply np_sum_nonneg, Forall_map. exact Hpos. }
  unfold fmul. apply fl_nonneg. apply Qmult_le_0_compat; [|discriminate].
  apply fl_nonneg. apply Qmult_le_0_compat; [exact Hdone|].
  now apply Qinv_le_0_compat.
Qed.

(** X12: on two frames whose distances are not negative and whose summed
    distances are not zero, the data of the progress chart is computed
    without an error: its dates start at the earliest date of the two frames
    and go up a day at a time without passing the latest, and each of its two
    curves has one finite percentage per date, none of them negative. *)
Theorem progress_curves_computed (a b : Frame) :
  Forall (fun r => (0 <= row_Miles (sched r))%Q) (rows a) ->
  Forall (fun r => (0 <= row_Miles (sched r))%Q) (rows b) ->
  ~ (np_sum (map (fun r => row_Miles (sched r)) (rows a)) == 0)%Q ->
  ~ (np_sum (map (fun r => row_Miles (sched r)) (rows b)) == 0)%Q ->
  exists min_date max_date percents_a percents_b,
    is_minimum min_date (all_dates a b)
    /\ is_maximum max_date (all_dates a b)
    /\ progress_curves a b
       = Return (date_range min_date max_date,
                 map Fin percents_a, map Fin percents_b)
    /\ hd_error (date_range min_date max_date) = Some min_date
    /\ Forall (fun d => min_date <= d <= max_date) (date_range min_date max_date)
    /\ StronglySorted Z.lt (date_range min_date max_date)
    /\ length (date_range min_date max_date)
       = Datatypes.S (Z.to_nat ((max_date - min_date) / ns_per_day))
    /\ length percents_a = length (date_range min_date max_date)
    /\ length percents_b = length (date_range min_date max_date)
    /\ Forall (fun q => (0 <= q)%Q) percents_a
    /\ Forall (fun q => (0 <= q)%Q) percents_b.
Proof.
  intros Hpa Hpb Hta Htb.
  assert (Hrows : rows a <> []).
  { intros H. apply Hta. rewrite H. cbn [map]. now rewrite np_sum_nil. }
  assert (Hall : all_dates a b <> []).
  { unfold all_dates. destruct (rows a); [contradiction|discriminate]. }
  destruct (Series_min_is_minimum _ Hall) as [min_date [Hmin Hismin]].
  assert (Hmax : exists max_date, is_maximum max_date (all_dates a b)).
  { destruct (all_dates a b) as [|x rest]; [contradiction|].
    exists (fold_left Z.max rest x).
    destruct (fold_max_spec rest x) as [Hin [Hle Hrest]]. split.
    - destruct Hin as [->|Hin]; [now left|now right].
    - now constructor. }
  destruct Hmax as [max_date Hismax].
  pose proof (Series_max_of_maximum _ _ Hismax) as Hmaxeq.
  assert (Hle : min_date <= max_date).
  { destruct Hismin as [Hin _]. destruct Hismax as [_ Hall'].
    rewrite Forall_forall in Hall'. now apply Hall'. }
  destruct (date_range_bounds min_date max_date Hle) as [Hhd [Hbounds Hlen]].
  exists min_date, max_date,
         (map (percent_on (rows a)) (date_range min_date max_date)),
         (map (percent_on (rows b)) (date_range min_date max_date)).
  split; [exact Hismin|]. split; [exact Hismax|]. split.
  - unfold progress_curves. rewrite Hmin, Hmaxeq. rewrite !map_map.
    do 2 f_equal.
    + f_equal. apply map_ext. intros d. now apply progress_on_percent.
    + apply map_ext. intros d. now apply progress_on_percent.
  - split; [exact Hhd|]. split; [exact Hbounds|].
    split; [apply date_range_ascending|]. split; [exact Hlen|].
    split; [now rewrite length_map|]. split; [now rewrite length_map|].
    split.
    + apply Forall_map, Forall_forall. intros d _. now apply percent_on_nonneg.
    + apply Forall_map, Forall_forall. intros d _. now apply percent_on_nonneg.
Qed.

End ProgressCurves.

Lemma progress_curves_computed_witness :
  exists min_date max_date percents_a percents_b,
    progress_curves (frame_of (sequence ByStartDate (init sample)))
                    (frame_of (sequence ByLowestCost (init sample)))
    = Return (date_range min_date max_date,
              map Fin percents_a, map Fin percents_b)
    /\ Forall (fun q => (0 <= q)%Q) percents_a
    /\ Forall (fun q => (0 <= q)%Q) percents_b.
Proof.
  destruct (progress_curves_computed
              (frame_of (sequence ByStartDate (init sample)))
              (frame_of (sequence ByLowestCost (init sample))))
    as [min_date [max_date [pa [pb [_ [_ [Hret [_ [_ [_ [_ [_ [_ [Ha Hb]]]]]]]]]]]]]].
  - vm_compute. repeat constructor; discriminate.
  - vm_compute. repeat constructor; discriminate.
  - vm_compute. discriminate.
  - vm_compute. discriminate.
  - exists min_date, max_date, pa, pb. now repeat split.
Defined.

(** ** An offset moves the whole report *)

(** A row of a frame, a pair of milestone columns and a frame moved by a
    number of days. *)
Definition shift_row (days : Z) (r : CumRow) : CumRow :=
  mkCumRow (shift_scheduled days (sched r)) (Cumulative_Miles r) (Cumulative_Cost r).

Definition shift_cols (days : Z) (c : MilestoneCols) : MilestoneCols :=
  mkMilestoneCols (pct c) (option_map (fun d => d + timedelta days) (Day c)) (Cost c).

Definition shift_frame (days : Z) (frame : Frame) : Frame :=
  mkFrame (map (shift_row days) (rows frame))
          (map (shift_cols days) (milestone_cols frame)).

(** No two segments of the working set tie under the rule's key. *)
Definition ties_free (rule : order_rule) (working_set : list Segment) : Prop :=
  forall x y,
    In x working_set -> In y working_set ->
    match rule with
    | ByStartDate => Start_Date x = Start_Date y
    | ByLowestCost => (Segment_Cost x == Segment_Cost y)%Q
    end ->
    x = y.

(** Two ascending arrangements of the same rows are equal when no two rows
    tie. *)
Lemma sorted_arrangement_unique {A : Type} (leb : A -> A -> bool) (l1 : list A) :
  StronglySorted (fun x y => leb x y = true) l1 ->
  (forall x y, In x l1 -> In y l1 -> leb x y = true -> leb y x = true -> x = y) ->
  forall l2,
    Permutation l1 l2 ->
    StronglySorted (fun x y => leb x y = true) l2 ->
    l1 = l2.
Proof.
  induction 1 as [|a t Ht IH Ha]; intros Hanti l2 Hperm Hsorted.
  - symmetry. now apply Permutation_nil.
  - destruct l2 as [|b t'].
    + apply Permutation_sym, Permutation_nil in Hperm. discriminate Hperm.
    + assert (Hab : a = b).
      { inversion Hsorted as [|? ? _ Hb]; subst.
        assert (Hbin : In b (a :: t))
          by (eapply Permutation_in; [apply Permutation_sym, Hperm|now left]).
        destruct Hbin as [Heq|Hbin]; [exact Heq|].
        assert (Hain : In a (b :: t'))
          by (eapply Permutation_in; [exact Hperm|now left]).
        destruct Hain as [Heq|Hain]; [now symmetry|].
        rewrite Forall_forall in Ha, Hb.
        apply Hanti; [now left|now right|now apply Ha|now apply Hb]. }
      subst b. f_equal. apply IH.
      * intros x y Hx Hy. apply Hanti; now right.
      * eapply Permutation_cons_inv. exact Hperm.
      * now inversion Hsorted.
Qed.

Section SortingRewrittenRows.

Context {sorter : Sorter} {arith : Float64}.

(** Sorting rows rewritten by [g] gives the sorted rows rewritten by [g],
    when [g] keeps the comparisons and no two rows tie. *)
Lemma sort_by_rewritten {A : Type} (leb : A -> A -> bool) (g : A -> A)
    (l : list A) :
  is_total leb -> is_transitive leb ->
  (forall x y, leb (g x) (g y) = leb x y) ->
  (forall x y, In x l -> In y l -> leb x y = true -> leb y x = true -> x = y) ->
  sort_by leb (map g l) = map g (sort_by leb l).
Proof.
  intros Htot Htr Hkeep Hanti. symmetry.
  apply (sorted_arrangement_unique leb).
  - apply (StronglySorted_map g (fun x y => leb x y = true)).
    eapply StronglySorted_weaken; [|apply (sort_by_sorted A leb Htot Htr l)].
    intros x y H. cbn. now rewrite Hkeep.
  - intros x y Hx Hy Hxy Hyx.
    apply in_map_iff in Hx. destruct Hx as [x0 [<- Hx0]].
    apply in_map_iff in Hy. destruct Hy as [y0 [<- Hy0]].
    rewrite Hkeep in Hxy, Hyx. f_equal.
    apply Hanti; try assumption.
    + eapply Permutation_in; [apply Permutation_sym, sort_by_perm|exact Hx0].
    + eapply Permutation_in; [apply Permutation_sym, sort_by_perm|exact Hy0].
  - eapply perm_trans; [apply Permutation_map, Permutation_sym, sort_by_perm|].
    apply sort_by_perm.
  - now apply sort_by_sorted.
Qed.

Lemma ordered_by_shifted (rule : order_rule) (days : Z) (l : list Segment) :
  ties_free rule l ->
  ordered_by rule (map (fun r => set_Start_Date r (Start_Date r + timedelta days)) l)
  = map (fun r => set_Start_Date r (Start_Date r + timedelta days))
        (ordered_by rule l).
Proof.
  intros Hfree. destruct rule; unfold ordered_by, sort_values.
  - apply sort_by_rewritten.
    + apply Zleb_key_total.
    + apply Zleb_key_transitive.
    + intros x y. cbn [set_Start_Date Start_Date].
      destruct (Z.leb_spec (Start_Date x) (Start_Date y));
        [apply Z.leb_le|apply Z.leb_gt]; lia.
    + intros x y Hx Hy Hxy Hyx. apply (Hfree x y Hx Hy).
      apply Z.leb_le in Hxy, Hyx. lia.
  - apply sort_by_rewritten.
    + apply Qleb_key_total.
    + apply Qleb_key_transitive.
    + intros x y. reflexivity.
    + intros x y Hx Hy Hxy Hyx. apply (Hfree x y Hx Hy).
      apply Qle_bool_iff in Hxy, Hyx. now apply Qle_antisym.
Qed.

End SortingRewrittenRows.

Lemma rows_determined (R R' : list CumRow) :
  map sched R = map sched R' ->
  map Cumulative_Miles R = map Cumulative_Miles R' ->
  map Cumulative_Cost R = map Cumulative_Cost R' ->
  R = R'.
Proof.
  revert R'. induction R as [|r rest IH]; intros [|r' rest'] Hs Hm Hc;
    try discriminate; [reflexivity|].
  cbn [map] in Hs, Hm, Hc.
  injection Hs as Hs1 Hs2. injection Hm as Hm1 Hm2. injection Hc as Hc1 Hc2.
  rewrite (IH rest' Hs2 Hm2 Hc2).
  destruct r, r'. cbn in *. now subst.
Qed.

Lemma find_map_keep {A : Type} (p : A -> bool) (g : A -> A) (l : list A) :
  (forall x, p (g x) = p x) ->
  find p (map g l) = option_map g (find p l).
Proof.
  intros Hkeep. induction l as [|x rest IH]; [reflexivity|].
  cbn [map find]. rewrite Hkeep. destruct (p x); [reflexivity|exact IH].
Qed.

(** The milestone columns of rows moved by some days are the columns of the
    rows, moved. *)
Lemma milestone_columns_shift {arith : Float64} (days : Z) (result : list CumRow)
    (total_miles milestone : Q) :
  milestone_columns (map (shift_row days) result) total_miles milestone
  = match milestone_columns result total_miles milestone with
    | Return c => Return (shift_cols days c)
    | Raise e => Raise e
    end.
Proof.
  rewrite !milestone_columns_row. unfold milestone_row, first_reaching.
  rewrite (find_map_keep _ (shift_row days)) by reflexivity.
  destruct (find _ result) as [row|]; [reflexivity|].
  destruct result as [|r rest]; reflexivity.
Qed.

Lemma milestone_loop_shift {arith : Float64} (days : Z) (result : list CumRow)
    (total_miles : Q) (ms : list Q) :
  milestone_loop (map (shift_row days) result) total_miles ms
  = match milestone_loop result total_miles ms with
    | Return cols => Return (map (shift_cols days) cols)
    | Raise e => Raise e
    end.
Proof.
  induction ms as [|m rest IH]; cbn [milestone_loop]; [reflexivity|].
  rewrite milestone_columns_shift, IH.
  destruct (milestone_columns result total_miles m); [|reflexivity].
  cbn [bind]. destruct (milestone_loop result total_miles rest); reflexivity.
Qed.

Section OffsetReport.

Context {sorter : Sorter} {arith : Float64}.

Lemma aggregated_shifted (days : Z) (ordered : list Segment) (cursor : Z) :
  Forall (fun s => 0 < Duration s) ordered ->
  aggregated (map (shift_scheduled days) (pack cursor ordered))
  = map (shift_row days) (aggregated (pack cursor ordered)).
Proof.
  intros Hdur.
  set (shifted := map (fun r => set_Start_Date r (Start_Date r + timedelta days))
                      ordered).
  assert (Hdur' : Forall (fun s => 0 < Duration s) shifted).
  { unfold shifted. apply Forall_map. exact Hdur. }
  rewrite <- pack_shift. fold shifted.
  destruct (aggregated_keeps_order shifted (cursor + timedelta days) Hdur')
    as [Hs' [Hm' Hc']].
  destruct (aggregated_keeps_order ordered cursor Hdur) as [Hs [Hm Hc]].
  set (R := aggregated (pack cursor ordered)) in *.
  assert (Hrs : map sched (map (shift_row days) R)
                = map (shift_scheduled days) (map sched R))
    by (rewrite !map_map; reflexivity).
  assert (Hrm : map Cumulative_Miles (map (shift_row days) R)
                = map Cumulative_Miles R)
    by (rewrite map_map; reflexivity).
  assert (Hrc : map Cumulative_Cost (map (shift_row days) R)
                = map Cumulative_Cost R)
    by (rewrite map_map; reflexivity).
  apply rows_determined.
  - rewrite Hs', Hrs, Hs. unfold shifted. apply pack_shift.
  - rewrite Hm', Hrm, Hm. unfold shifted. now rewrite map_map.
  - rewrite Hc', Hrc, Hc. unfold shifted. now rewrite map_map.
Qed.

(** X3: when no two segments tie under the rule and every duration is positive,
    an offset alone moves the whole report by that many days: sequencing
    after [apply_parameters] with the offset returns the frame that
    sequencing the original data returns, with every planned start, actual
    start, actual end and milestone day moved by the offset and every running
    total and milestone cost unchanged. *)
Theorem offset_moves_report (self : FiberSequencer) (rule : order_rule) (days : Z) :
  original_data self <> [] ->
  ties_free rule (original_data self) ->
  Forall (fun s => 0 < Duration s) (original_data self) ->
  exists frame,
    sequence rule (fst (apply_parameters self 0 1 None)) = Return frame
    /\ sequence rule (fst (apply_parameters self days 1 None))
       = Return (shift_frame days frame).
Proof.
  intros Hne Hfree Hdur.
  set (shift := fun r => set_Start_Date r (Start_Date r + timedelta days)).
  assert (Hbase : data (fst (apply_parameters self 0 1 None)) = original_data self)
    by reflexivity.
  assert (Hmoved : data (fst (apply_parameters self days 1 None))
                   = map shift (original_data self)).
  { rewrite apply_parameters_ok by discriminate.
    cbn [fst set_data data cost_filter]. apply map_ext. intros s.
    now apply adjust_segment_same_rate. }
  rewrite !sequence_unfold, Hbase, Hmoved.
  unfold shift. rewrite (ordered_by_shifted rule days _ Hfree), actual_dates_shift.
  pose proof (ordered_by_not_nil rule _ Hne) as Hord.
  pose proof (ordered_by_perm rule (original_data self)) as Hperm.
  assert (Hdur' : Forall (fun s => 0 < Duration s) (ordered_by rule (original_data self)))
    by (eapply Permutation_Forall; eassumption).
  destruct (Series_min_is_minimum
              (map Start_Date (ordered_by rule (original_data self))))
    as [cursor [Hmin _]].
  { intros H. apply map_eq_nil in H. contradiction. }
  rewrite (actual_dates_pack _ _ Hmin).
  destruct (cumulative_metrics_returns
              (pack cursor (ordered_by rule (original_data self)))
              (pack_not_nil _ cursor Hord)) as [cols [Hret _]].
  exists (mkFrame (aggregated (pack cursor (ordered_by rule (original_data self))))
                  cols).
  split; [exact Hret|].
  unfold _calculate_cumulative_metrics in *.
  fold (aggregated (map (shift_scheduled days)
                        (pack cursor (ordered_by rule (original_data self))))).
  fold (aggregated (pack cursor (ordered_by rule (original_data self)))) in Hret.
  rewrite (aggregated_shifted days _ cursor Hdur').
  rewrite map_map. cbn [shift_row sched shift_scheduled seg set_Start_Date].
  change (map (fun x : CumRow => row_Miles (sched (shift_row days x)))
              (aggregated (pack cursor (ordered_by rule (original_data self)))))
    with (map (fun r : CumRow => row_Miles (sched r))
              (aggregated (pack cursor (ordered_by rule (original_data self))))).
  rewrite milestone_loop_shift.
  destruct (milestone_loop _ _ milestones) as [cols'|e]; [|discriminate Hret].
  cbn [bind] in *. injection Hret as <-. reflexivity.
Qed.

End OffsetReport.

Lemma sample_costs_differ : ties_free ByLowestCost (original_data (init sample)).
Proof.
  intros x y Hx Hy Hkey. cbn in Hx, Hy.
  destruct Hx as [<-|[<-|[<-|[]]]]; destruct Hy as [<-|[<-|[<-|[]]]];
    try reflexivity; exfalso; revert Hkey; unfold Qeq; cbn; lia.
Qed.

Lemma offset_moves_report_witness :
  exists frame,
    sequence ByLowestCost (fst (apply_parameters (init sample) 0 1 None))
    = Return frame
    /\ sequence ByLowestCost (fst (apply_parameters (init sample) 7 1 None))
       = Return (shift_frame 7 frame).
Proof.
  apply (offset_moves_report (init sample) ByLowestCost 7).
  - discriminate.
  - exact sample_costs_differ.
  - repeat constructor.
Defined.

(** ** What the sorting routine can change *)

Section AnySorter.

Context {arith : Float64}.

Lemma milestone_cols_determined (result : list CumRow) (total_miles : Q)
    (ms : list Q) (cols1 cols2 : list MilestoneCols) :
  Forall2 (fun m c => milestone_columns result total_miles m = Return c) ms cols1 ->
  Forall2 (fun m c => milestone_columns result total_miles m = Return c) ms cols2 ->
  cols1 = cols2.
Proof.
  intros H1. revert cols2.
  induction H1 as [|m c1 ms cols1 Hc1 _ IH]; intros cols2 H2;
    inversion H2 as [|? c2 ? cols2' Hc2 Hrest]; subst; [reflexivity|].
  rewrite Hc1 in Hc2. injection Hc2 as <-. f_equal. now apply IH.
Qed.

Lemma ordered_by_any_sorter (s1 s2 : Sorter) (rule : order_rule)
    (l : list Segment) :
  ties_free rule l -> @ordered_by s1 rule l = @ordered_by s2 rule l.
Proof.
  intros Hfree.
  pose proof (@ordered_by_perm s1 rule l) as Hp1.
  pose proof (@ordered_by_perm s2 rule l) as Hp2.
  destruct rule; unfold ordered_by, sort_values in *.
  - apply (sorted_arrangement_unique
             (fun x y => Start_Date x <=? Start_Date y)).
    + apply sort_by_sorted; [apply Zleb_key_total|apply Zleb_key_transitive].
    + intros x y Hx Hy Hxy Hyx. apply Hfree.
      * eapply Permutation_in; [apply Permutation_sym, Hp1|exact Hx].
      * eapply Permutation_in; [apply Permutation_sym, Hp1|exact Hy].
      * apply Z.leb_le in Hxy, Hyx. lia.
    + eapply perm_trans; [apply Permutation_sym, Hp1|exact Hp2].
    + apply sort_by_sorted; [apply Zleb_key_total|apply Zleb_key_transitive].
  - apply (sorted_arrangement_unique
             (fun x y => Qle_bool (Segment_Cost x) (Segment_Cost y))).
    + apply sort_by_sorted; [apply Qleb_key_total|apply Qleb_key_transitive].
    + intros x y Hx Hy Hxy Hyx. apply Hfree.
      * eapply Permutation_in; [apply Permutation_sym, Hp1|exact Hx].
      * eapply Permutation_in; [apply Permutation_sym, Hp1|exact Hy].
      * apply Qle_bool_iff in Hxy, Hyx. now apply Qle_antisym.
    + eapply perm_trans; [apply Permutation_sym, Hp1|exact Hp2].
    + apply sort_by_sorted; [apply Qleb_key_total|apply Qleb_key_transitive].
Qed.

(** X13: the sorting routine matters for ties only: when no two segments of the
    working set tie under the rule and every duration is positive, any two
    routines that meet the sorting contract give the same outcome of the
    sequencing method. *)
Theorem outcome_independent_of_sorter (s1 s2 : Sorter) (self : FiberSequencer)
    (rule : order_rule) :
  ties_free rule (data self) ->
  Forall (fun s => 0 < Duration s) (data self) ->
  sequence (sorter := s1) rule self = sequence (sorter := s2) rule self.
Proof.
  intros Hfree Hdur.
  destruct (data self) as [|s0 rest] eqn:Hdata.
  - now rewrite !sequence_raises_on_empty by exact Hdata.
  - assert (Hne : data self <> []) by (rewrite Hdata; discriminate).
    rewrite <- Hdata in Hfree, Hdur.
    destruct (sequence_frame (sorter := s1) self rule Hne)
      as [c1 [cols1 [Hmin1 [Hret1 Hcols1]]]].
    destruct (sequence_frame (sorter := s2) self rule Hne)
      as [c2 [cols2 [Hmin2 [Hret2 Hcols2]]]].
    assert (Hc : c2 = c1) by (eapply is_minimum_unique; eassumption). subst c2.
    rewrite <- (ordered_by_any_sorter s1 s2 rule _ Hfree) in Hret2, Hcols2.
    set (ordered := @ordered_by s1 rule (data self)) in *.
    assert (Hdur' : Forall (fun s => 0 < Duration s) ordered).
    { eapply Permutation_Forall; [apply (@ordered_by_perm s1)|exact Hdur]. }
    destruct (aggregated_keeps_order (sorter := s1) ordered c1 Hdur')
      as [Ha1 [Hm1 Hk1]].
    destruct (aggregated_keeps_order (sorter := s2) ordered c1 Hdur')
      as [Ha2 [Hm2 Hk2]].
    assert (Hrows : aggregated (sorter := s2) (pack c1 ordered)
                    = aggregated (sorter := s1) (pack c1 ordered)).
    { apply rows_determined; congruence. }
    rewrite Hrows in Hret2, Hcols2.
    rewrite (milestone_cols_determined _ _ _ cols2 cols1 Hcols2 Hcols1) in Hret2.
    now rewrite Hret1, Hret2.
Qed.

End AnySorter.

Lemma outcome_independent_of_sorter_witness :
  sequence (sorter := insertion_sorter) ByLowestCost (init sample)
  = sequence (sorter := reversing_sorter) ByLowestCost (init sample).
Proof.
  apply (outcome_independent_of_sorter insertion_sorter reversing_sorter
           (init sample) ByLowestCost).
  - exact sample_costs_differ.
  - repeat constructor.
Defined.
